(** * PayLoad: pay calculation, record store, monthly history and CSV export

    A shallow embedding of the business rules of the PayLoad delivery
    tracker ([services/storage.ts], the browser-storage variant of the same
    service kept in [types.ts], and the two view computations of [App.tsx]
    that build records and monthly groups), followed by the properties the
    specification states about them.

    Conventions of the embedding
    - a JavaScript [number] that counts items (a quantity, a timestamp) is
      an integer of [Z]; a [number] that holds money is an exact rational
      of [Q], so [0.80] is four fifths and binary rounding is abstracted;
    - [NaN] only arises from [parseInt], which returns [option Z];
    - strings are [string] (sequences of bytes); text of the forms, ids and
      dates is ASCII, where bytes and UTF-16 code units coincide;
    - an optional field ([routeNames?], [isTwoIDs?]) is an [option];
    - [crypto.randomUUID()] and [Date.now()] are read from the environment:
      the operations that call them take the values as arguments;
    - a function that throws returns [Throw msg] in the [result] type. *)

From Stdlib Require Import ZArith QArith Qround Qabs Lqa.
From Stdlib Require Import List String Ascii Bool Lia.
From Stdlib Require Import DecimalString DecimalPos Permutation Sorted.
From Stdlib Require HexadecimalString.
From Stdlib Require Import OrderedTypeEx.
Import ListNotations.

(** ** JavaScript primitives used by the sources *)

Module Js.

(** Outcome of a call that may [throw new Error(msg)]. *)
Inductive result (A : Type) : Type :=
| Ok (a : A)
| Throw (msg : string).
Arguments Ok {A} a.
Arguments Throw {A} msg.

(** Truthiness of a string: only the empty string is falsy. *)
Definition truthy (s : string) : bool :=
  match s with
  | EmptyString => false
  | String _ _ => true
  end.

(** [o || dflt] for [o : string | undefined] and a string [dflt]. *)
Definition or_else (o : option string) (dflt : string) : string :=
  match o with
  | Some s => if truthy s then s else dflt
  | None => dflt
  end.

(** [a || b] for a string [a] and [b : string | undefined]; a falsy
    result is [""] or [undefined], kept apart as [Some ""] and [None]. *)
Definition or_opt (a : string) (b : option string) : option string :=
  if truthy a then Some a else b.

(** Truthiness of the number returned by [parseInt]: [NaN] and [0] are
    falsy. *)
Definition truthy_num (n : option Z) : bool :=
  match n with
  | Some z => negb (z =? 0)%Z
  | None => false
  end.

(** [n || 0] for a number [n]. *)
Definition num_or_zero (n : option Z) : Z :=
  match n with
  | Some z => z
  | None => 0%Z
  end.

(** [n > 0] for a number [n]; every comparison with [NaN] is false. *)
Definition gt_zero (n : option Z) : bool :=
  match n with
  | Some z => (0 <? z)%Z
  | None => false
  end.

(** *** [parseInt(s)] with no radix *)

Definition is_space (c : ascii) : bool :=
  let n := nat_of_ascii c in
  ((9 <=? n) && (n <=? 13) || (n =? 32))%nat.

Fixpoint trim_start (s : string) : string :=
  match s with
  | String c s' => if is_space c then trim_start s' else s
  | EmptyString => s
  end.

Definition digit_value (c : ascii) : option Z :=
  let n := nat_of_ascii c in
  if ((48 <=? n) && (n <=? 57))%nat then Some (Z.of_nat (n - 48))
  else if ((97 <=? n) && (n <=? 102))%nat then Some (Z.of_nat (n - 87))
  else if ((65 <=? n) && (n <=? 70))%nat then Some (Z.of_nat (n - 55))
  else None.

(** Longest prefix of digits of radix [radix], read most significant
    first; [None] when the prefix is empty. *)
Fixpoint read_digits (radix : Z) (acc : option Z) (s : string) : option Z :=
  match s with
  | String c s' =>
      match digit_value c with
      | Some d =>
          if (d <? radix)%Z
          then read_digits radix (Some (num_or_zero acc * radix + d)%Z) s'
          else acc
      | None => acc
      end
  | EmptyString => acc
  end.

Definition strip_sign (s : string) : bool * string :=
  match s with
  | String "-" s' => (true, s')
  | String "+" s' => (false, s')
  | _ => (false, s)
  end.

Definition strip_hex_prefix (s : string) : Z * string :=
  match s with
  | String "0" (String "x" s') => (16%Z, s')
  | String "0" (String "X" s') => (16%Z, s')
  | _ => (10%Z, s)
  end.

Definition parseInt (s : string) : option Z :=
  let (negative, s1) := strip_sign (trim_start s) in
  let (radix, s2) := strip_hex_prefix s1 in
  match read_digits radix None s2 with
  | Some n => Some (if negative then (- n)%Z else n)
  | None => None
  end.

(** *** Number to string *)

(** [n.toString()] for an integer [n] written in decimal notation (below
    [10^21] in magnitude, where JavaScript switches to exponents). *)
Definition toString (n : Z) : string :=
  NilZero.string_of_int (Z.to_int n).

Fixpoint zeros (k : nat) : string :=
  match k with
  | O => EmptyString
  | S k' => String "0" (zeros k')
  end.

(** [x.toFixed(2)], by the steps of ECMAScript's [Number.prototype.toFixed]
    on the exact value of [x]: the sign is set apart, [n] is the integer
    nearest to [|x| * 100] (the larger one on a tie), its digits are padded
    with zeros to three and the point is put before the last two.  The
    embedding covers finite [x] with [|x| < 10^21]. *)
Definition toFixed2 (x : Q) : string :=
  let s := if Qle_bool 0 x then EmptyString else "-"%string in
  let x := if Qle_bool 0 x then x else Qopp x in
  let n := Qfloor (x * 100 + (1 # 2)) in
  let m := toString n in
  let m := if (String.length m <=? 2)%nat
           then (zeros (3 - String.length m) ++ m)%string else m in
  let k := String.length m in
  (s ++ substring 0 (k - 2) m ++ "." ++ substring (k - 2) 2 m)%string.

(** *** Arrays *)

(** [parts.join(sep)]. *)
Definition join (sep : string) (parts : list string) : string :=
  String.concat sep parts.

(** [a.localeCompare(b)]: negative, zero or positive as [a] sorts before,
    with or after [b].  The strings compared by the sources are dates and
    month keys ([YYYY-MM-DD], [YYYY-MM]), on which the collation order is
    the order of the characters; the embedding compares characters. *)
Definition localeCompare (a b : string) : comparison :=
  String.compare a b.

(** [Array.prototype.sort(comparefn)]: the sort is stable, and
    [comparefn a b] negative (here [Lt]) puts [a] first. *)
Fixpoint sort_insert {A : Type} (comparefn : A -> A -> comparison)
         (x : A) (l : list A) : list A :=
  match l with
  | [] => [x]
  | y :: l' =>
      match comparefn x y with
      | Gt => y :: sort_insert comparefn x l'
      | _ => x :: l
      end
  end.

Definition sort {A : Type} (comparefn : A -> A -> comparison)
           (l : list A) : list A :=
  fold_right (sort_insert comparefn) [] l.

(** [s.charAt(0).toUpperCase() + s.slice(1)] on an ASCII initial. *)
Definition upper (c : ascii) : ascii :=
  let n := nat_of_ascii c in
  if ((97 <=? n) && (n <=? 122))%nat then ascii_of_nat (n - 32) else c.

Definition capitalize (s : string) : string :=
  match s with
  | String c s' => String (upper c) s'
  | EmptyString => EmptyString
  end.

(** *** Objects used as maps

    [{ [key: string]: A }]: the own properties in insertion order, which
    is the order [Object.values] lists them in (keys that are not array
    indices).  Properties inherited from [Object.prototype] are not part
    of the embedding. *)
Definition object (A : Type) : Type := list (string * A).

Fixpoint get {A : Type} (o : object A) (key : string) : option A :=
  match o with
  | [] => None
  | (k, v) :: o' => if (k =? key)%string then Some v else get o' key
  end.

(** [o[key] = v]: replaces the property in place, or adds it last. *)
Fixpoint set {A : Type} (o : object A) (key : string) (v : A) : object A :=
  match o with
  | [] => [(key, v)]
  | (k, w) :: o' =>
      if (k =? key)%string then (k, v) :: o' else (k, w) :: set o' key v
  end.

(** A mutation [f] of the object stored under [key]. *)
Fixpoint update {A : Type} (o : object A) (key : string) (f : A -> A)
  : object A :=
  match o with
  | [] => []
  | (k, w) :: o' =>
      if (k =? key)%string then (k, f w) :: o' else (k, w) :: update o' key f
  end.

Definition values {A : Type} (o : object A) : list A := map snd o.

Definition LF : string := String "010"%char EmptyString.

End Js.

(** ** Data model ([types.ts]) *)

Inductive UserRole : Type := ADMIN | DRIVER.

Record User : Type := mkUser {
  u_id : string;
  u_name : string;
  u_username : string;
  u_passwordHash : string;
  u_role : UserRole;
  u_createdAt : Z
}.

Inductive RecordMode : Type := INDIVIDUAL | DAILY.

Inductive IndividualType : Type := PARCEL | COLLECTION | DAILY_FLAT.

Record WorkRecord : Type := mkWorkRecord {
  id : string;
  userId : string;
  date : string;
  mode : RecordMode;
  type : IndividualType;
  quantity : Z;
  value : Q;
  routeNames : option string;
  isTwoIDs : option bool;
  photos : list string;
  timestamp : Z
}.

(** [Omit<WorkRecord, 'id' | 'timestamp'>], the argument of [createRecord]. *)
Record RecordDraft : Type := mkRecordDraft {
  d_userId : string;
  d_date : string;
  d_mode : RecordMode;
  d_type : IndividualType;
  d_quantity : Z;
  d_value : Q;
  d_routeNames : option string;
  d_isTwoIDs : option bool;
  d_photos : list string
}.

Record MonthlyGroup : Type := mkMonthlyGroup {
  monthKey : string;
  label : string;
  total : Q;
  records : list WorkRecord
}.

(** The enumerations are string enums: their members print as their names. *)
Definition RecordMode_str (m : RecordMode) : string :=
  match m with
  | INDIVIDUAL => "INDIVIDUAL"
  | DAILY => "DAILY"
  end.

Definition IndividualType_str (t : IndividualType) : string :=
  match t with
  | PARCEL => "PARCEL"
  | COLLECTION => "COLLECTION"
  | DAILY_FLAT => "DAILY_FLAT"
  end.

Definition UserRole_eqb (a b : UserRole) : bool :=
  match a, b with
  | ADMIN, ADMIN | DRIVER, DRIVER => true
  | _, _ => false
  end.

(** ** Calculation logic ([storage.ts], the same text in [types.ts]) *)

Record IndividualPay : Type := mkIndividualPay {
  parcelValue : Q;
  collectionValue : Q;
  pay_total : Q
}.

Definition calculateIndividual (parcels collections : Z) : IndividualPay :=
  let parcelValue := (inject_Z parcels * 1.00)%Q in
  let collectionValue := (inject_Z collections * 0.80)%Q in
  mkIndividualPay parcelValue collectionValue (parcelValue + collectionValue)%Q.

Definition calculateDaily (isTwoIDs : bool) (quantity : Z) : Q :=
  if negb isTwoIDs then 180.00%Q
  else if (quantity <? 150)%Z then 260.00%Q
  else if (quantity <=? 250)%Z then 300.00%Q
  else 360.00%Q.

(** ** CSV export ([storage.ts], the same text in [types.ts]) *)

Definition csv_headers : list string :=
  ["Data"; "Tipo"; "Modo"; "Qtd"; "Valor"; "Rotas"; "ID"]%string.

(** The array built for one record by [records.map(r => [...])]. *)
Definition csv_row (r : WorkRecord) : list string :=
  [ date r;
    IndividualType_str (type r);
    RecordMode_str (mode r);
    Js.toString (quantity r);
    Js.toFixed2 (value r);
    Js.or_else (routeNames r) "-";
    id r ].

Definition csvContent (records : list WorkRecord) : string :=
  let rows := map csv_row records in
  Js.join Js.LF
    (Js.join "," csv_headers :: map (fun row => Js.join "," row) rows).

(** What [generateCSV] hands to the browser: the text of the blob and the
    [download] attribute of the link that is clicked. *)
Record Download : Type := mkDownload {
  blob_text : string;
  blob_type : string;
  download : string
}.

Definition generateCSV (records : list WorkRecord) (fileName : string)
  : Download :=
  mkDownload (csvContent records) "text/csv;charset=utf-8;"
             (fileName ++ ".csv")%string.

(** ** The service over browser storage ([types.ts]) *)

Module LocalStore.

Import Js.

(** [localStorage] under the two keys of [KEYS]: [None] while the key is
    unset (or holds text that does not parse), [Some] of the decoded
    array otherwise. *)
Record Storage : Type := mkStorage {
  pt_users_v2 : option (list User);
  pt_records_v2 : option (list WorkRecord)
}.

Definition getStoredUsers (st : Storage) : list User :=
  match pt_users_v2 st with
  | Some users => users
  | None => []
  end.

Definition saveStoredUsers (users : list User) (st : Storage) : Storage :=
  mkStorage (Some users) (pt_records_v2 st).

Definition initializeStorage (uuid : string) (now : Z) (st : Storage)
  : Storage :=
  let users := getStoredUsers st in
  let adminExists := existsb (fun u => (u_username u =? "admin")%string) users in
  if negb adminExists then
    let admin := mkUser uuid "System Admin" "admin" "EVRI01" ADMIN now in
    saveStoredUsers (users ++ [admin]) st
  else st.

Definition authenticate (username password : string) (role : UserRole)
           (st : Storage) : option User :=
  find (fun u => (u_username u =? username)%string
                 && (u_passwordHash u =? password)%string
                 && UserRole_eqb (u_role u) role)
       (getStoredUsers st).

(** The call returns the user or throws; the storage it leaves behind is
    the second component in both cases. *)
Definition registerUser (uuid : string) (now : Z)
           (name username password : string) (st : Storage)
  : result User * Storage :=
  let users := getStoredUsers st in
  if existsb (fun u => (u_username u =? username)%string) users then
    (Throw "Usuário já existe.", st)
  else
    let newUser := mkUser uuid name username password DRIVER now in
    (Ok newUser, saveStoredUsers (users ++ [newUser]) st).

Definition getAllDrivers (st : Storage) : list User :=
  filter (fun u => UserRole_eqb (u_role u) DRIVER) (getStoredUsers st).

Definition getStoredRecords (st : Storage) : list WorkRecord :=
  match pt_records_v2 st with
  | Some records => records
  | None => []
  end.

Definition saveStoredRecords (records : list WorkRecord) (st : Storage)
  : Storage :=
  mkStorage (pt_users_v2 st) (Some records).

Definition createRecord (uuid : string) (now : Z) (record : RecordDraft)
           (st : Storage) : Storage :=
  let records := getStoredRecords st in
  let newRecord :=
    mkWorkRecord uuid (d_userId record) (d_date record) (d_mode record)
                 (d_type record) (d_quantity record) (d_value record)
                 (d_routeNames record) (d_isTwoIDs record) (d_photos record)
                 now in
  saveStoredRecords (records ++ [newRecord]) st.

Definition getUserRecords (userId' : string) (st : Storage)
  : list WorkRecord :=
  let records := getStoredRecords st in
  sort (fun a b => localeCompare (date b) (date a))
       (filter (fun r => (userId r =? userId')%string) records).

Definition deleteRecord (recordId : string) (st : Storage) : Storage :=
  let records := getStoredRecords st in
  let records := filter (fun r => negb (id r =? recordId)%string) records in
  saveStoredRecords records st.

End LocalStore.

(** ** The service over the hosted database ([services/storage.ts])

    The database client is an external collaborator.  Its tables are
    embedded as lists of rows, [None] while a table has not been
    provisioned; a query resolves to a [Response] holding [data] and
    [error].  Requests reach the database, so the only failure is the
    missing table, and [single()] fails with code [PGRST116] unless the
    query matches one row.  The column names ([user_id], [route_names], ...)
    are those of the fields, mapped one to one. *)

Module HostedStore.

Import Js.

Record Database : Type := mkDatabase {
  users : option (list User);
  work_records : option (list WorkRecord)
}.

Record PgError : Type := mkPgError {
  code : string;
  message : string
}.

Record Response (A : Type) : Type := mkResponse {
  data : option A;
  error : option PgError
}.
Arguments mkResponse {A} data error.
Arguments data {A} r.
Arguments error {A} r.

Definition undefined_table (name : string) : PgError :=
  mkPgError "42P01" ("relation " ++ name ++ " does not exist")%string.

Definition no_single_row : PgError :=
  mkPgError "PGRST116" "JSON object requested, multiple (or no) rows returned".

(** [from(table).select('*').eq(...)...]: the rows that pass the filters. *)
Definition select {A : Type} (name : string) (table : option (list A))
           (matches : A -> bool) : Response (list A) :=
  match table with
  | Some rows => mkResponse (Some (filter matches rows)) None
  | None => mkResponse None (Some (undefined_table name))
  end.

(** [.single()]. *)
Definition single {A : Type} (r : Response (list A)) : Response A :=
  match error r, data r with
  | Some e, _ => mkResponse None (Some e)
  | None, Some [row] => mkResponse (Some row) None
  | None, _ => mkResponse None (Some no_single_row)
  end.

(** [.order('date', { ascending: false })]. *)
Definition order_by_date_desc (r : Response (list WorkRecord))
  : Response (list WorkRecord) :=
  mkResponse
    (option_map (sort (fun a b => localeCompare (date b) (date a))) (data r))
    (error r).

Definition insert_user (row : User) (db : Database)
  : Response User * Database :=
  match users db with
  | Some rows =>
      (mkResponse (Some row) None,
       mkDatabase (Some (rows ++ [row])) (work_records db))
  | None => (mkResponse None (Some (undefined_table "users")), db)
  end.

Definition insert_record (row : WorkRecord) (db : Database)
  : Response WorkRecord * Database :=
  match work_records db with
  | Some rows =>
      (mkResponse (Some row) None,
       mkDatabase (users db) (Some (rows ++ [row])))
  | None => (mkResponse None (Some (undefined_table "work_records")), db)
  end.

Definition delete_records (matches : WorkRecord -> bool) (db : Database)
  : Response unit * Database :=
  match work_records db with
  | Some rows =>
      (mkResponse None None,
       mkDatabase (users db) (Some (filter (fun r => negb (matches r)) rows)))
  | None => (mkResponse None (Some (undefined_table "work_records")), db)
  end.

(** The row id is filled in by the database: [uuid] is that value. *)
Definition initializeStorage (uuid : string) (now : Z) (db : Database)
  : Database :=
  let r := single (select "users" (users db)
                          (fun u => (u_username u =? "admin")%string)) in
  match error r with
  | Some e =>
      if negb (code e =? "PGRST116")%string then db
      else
        match data r with
        | Some _ => db
        | None =>
            snd (insert_user
                   (mkUser uuid "System Admin" "admin" "EVRI01" ADMIN now) db)
        end
  | None =>
      match data r with
      | Some _ => db
      | None =>
          snd (insert_user
                 (mkUser uuid "System Admin" "admin" "EVRI01" ADMIN now) db)
      end
  end.

Definition authenticate (username password : string) (role : UserRole)
           (db : Database) : option User :=
  let r := single (select "users" (users db)
                     (fun u => (u_username u =? username)%string
                               && (u_passwordHash u =? password)%string
                               && UserRole_eqb (u_role u) role)) in
  match error r, data r with
  | None, Some row => Some row
  | _, _ => None
  end.

Definition registerUser (uuid : string) (now : Z)
           (name username password : string) (db : Database)
  : result User * Database :=
  let existing := data (single (select "users" (users db)
                          (fun u => (u_username u =? username)%string))) in
  match existing with
  | Some _ => (Throw "Usuário já existe.", db)
  | None =>
      let newUser := mkUser uuid name username password DRIVER now in
      let (r, db') := insert_user newUser db in
      match error r, data r with
      | Some e, _ => (Throw (message e), db')
      | None, Some row => (Ok row, db')
      | None, None => (Throw "Cannot read properties of null", db')
      end
  end.

Definition getAllDrivers (db : Database) : list User :=
  let r := select "users" (users db)
                  (fun u => UserRole_eqb (u_role u) DRIVER) in
  match error r, data r with
  | None, Some rows => rows
  | _, _ => []
  end.

Definition createRecord (uuid : string) (now : Z) (record : RecordDraft)
           (db : Database) : result unit * Database :=
  let newRecord :=
    mkWorkRecord uuid (d_userId record) (d_date record) (d_mode record)
                 (d_type record) (d_quantity record) (d_value record)
                 (d_routeNames record) (d_isTwoIDs record) (d_photos record)
                 now in
  let (r, db') := insert_record newRecord db in
  match error r with
  | Some e => (Throw ("Erro ao salvar registro: " ++ message e)%string, db')
  | None => (Ok tt, db')
  end.

Definition getUserRecords (userId' : string) (db : Database)
  : list WorkRecord :=
  let r := order_by_date_desc
             (select "work_records" (work_records db)
                     (fun r => (userId r =? userId')%string)) in
  match error r, data r with
  | None, Some rows => rows
  | _, _ => []
  end.

Definition deleteRecord (recordId : string) (db : Database)
  : result unit * Database :=
  let (r, db') := delete_records (fun r => (id r =? recordId)%string) db in
  match error r with
  | Some _ => (Throw "Erro ao deletar registro", db')
  | None => (Ok tt, db')
  end.

End HostedStore.

(** ** The views ([App.tsx]) *)

(** State of the record-entry form ([CalculatorView]); the text inputs
    hold strings. *)
Record CalculatorForm : Type := mkCalculatorForm {
  f_mode : RecordMode;
  f_date : string;
  f_parcels : string;
  f_collections : string;
  f_isTwoIDs : bool;
  f_dailyQty : string;
  f_routeId1 : string;
  f_routeId2 : string;
  f_photos : list string
}.

Definition previewValue (f : CalculatorForm) : Q :=
  match f_mode f with
  | INDIVIDUAL =>
      let p := Js.num_or_zero (Js.parseInt (f_parcels f)) in
      let c := Js.num_or_zero (Js.parseInt (f_collections f)) in
      pay_total (calculateIndividual p c)
  | DAILY =>
      let qty := Js.num_or_zero (Js.parseInt (f_dailyQty f)) in
      calculateDaily (f_isTwoIDs f) qty
  end.

(** What [handleSave] does up to its first [await]: it alerts a message, or
    it calls [createRecord] on each draft of [Calls], in this order. *)
Inductive SaveOutcome : Type :=
| Alert (msg : string)
| Calls (drafts : list RecordDraft).

Definition handleSave (user : User) (f : CalculatorForm) : SaveOutcome :=
  if negb (Js.truthy (f_date f)) then Alert "Selecione uma data"
  else
    match f_mode f with
    | INDIVIDUAL =>
        let pQty := Js.parseInt (f_parcels f) in
        let cQty := Js.parseInt (f_collections f) in
        if negb (Js.truthy_num pQty) && negb (Js.truthy_num cQty)
        then Alert "Preencha ao menos parcelas ou coletas."
        else
          let promises := [] in
          let promises :=
            if Js.gt_zero pQty then
              promises ++
              [mkRecordDraft (u_id user) (f_date f) (f_mode f) PARCEL
                 (Js.num_or_zero pQty) (inject_Z (Js.num_or_zero pQty) * 1.00)%Q
                 (Some (f_routeId1 f)) (Some false) (f_photos f)]
            else promises in
          let promises :=
            if Js.gt_zero cQty then
              promises ++
              [mkRecordDraft (u_id user) (f_date f) (f_mode f) COLLECTION
                 (Js.num_or_zero cQty) (inject_Z (Js.num_or_zero cQty) * 0.80)%Q
                 (Some (f_routeId1 f)) (Some false) (f_photos f)]
            else promises in
          Calls promises
    | DAILY =>
        let qty := Js.num_or_zero (Js.parseInt (f_dailyQty f)) in
        if f_isTwoIDs f
           && (negb (Js.truthy (f_routeId1 f)) || negb (Js.truthy (f_routeId2 f)))
        then Alert "Digite os IDs das duas rotas."
        else
          let finalRouteNames :=
            if f_isTwoIDs f
            then (f_routeId1 f ++ " + " ++ f_routeId2 f)%string
            else f_routeId1 f in
          let singleRouteName :=
            if negb (f_isTwoIDs f) && Js.truthy (f_routeId1 f)
            then Some (f_routeId1 f) else None in
          Calls
            [mkRecordDraft (u_id user) (f_date f) (f_mode f) DAILY_FLAT
               (if f_isTwoIDs f then qty else 1%Z)
               (previewValue f)
               (Js.or_opt finalRouteNames singleRouteName)
               (Some (f_isTwoIDs f)) (f_photos f)]
    end.

Section History.

(** [new Date(d).toLocaleString('pt-BR', { month: 'long', year: 'numeric' })]
    is computed by the browser from its locale data and time zone. *)
Variable toLocaleMonthYear : string -> string.

(** [g.records.push(r)] and [g.total += v] on a group [g]. *)
Definition push_record (r : WorkRecord) (g : MonthlyGroup) : MonthlyGroup :=
  mkMonthlyGroup (monthKey g) (label g) (total g) (records g ++ [r]).

Definition add_total (v : Q) (g : MonthlyGroup) : MonthlyGroup :=
  mkMonthlyGroup (monthKey g) (label g) (total g + v)%Q (records g).

(** Body of [records.forEach] in [HistoryView.groupedRecords]. *)
Definition group_step (groups : Js.object MonthlyGroup) (r : WorkRecord)
  : Js.object MonthlyGroup :=
  let monthKey := substring 0 7 (date r) in
  let monthName := toLocaleMonthYear (date r) in
  let label := Js.capitalize monthName in
  let groups :=
    match Js.get groups monthKey with
    | None => Js.set groups monthKey (mkMonthlyGroup monthKey label 0 [])
    | Some _ => groups
    end in
  let groups := Js.update groups monthKey (push_record r) in
  Js.update groups monthKey (add_total (value r)).

Definition groupedRecords (records : list WorkRecord) : list MonthlyGroup :=
  let groups := fold_left group_step records [] in
  Js.sort (fun a b => Js.localeCompare (monthKey b) (monthKey a))
          (Js.values groups).

End History.

(** ** Vocabulary of the properties *)

(** The year-month prefix of a record's date. *)
Definition month_of (r : WorkRecord) : string := substring 0 7 (date r).

(** Sum of the [value] fields, added in list order from zero. *)
Definition sum_values (rs : list WorkRecord) : Q :=
  fold_left Qplus (map value rs) 0%Q.

(** The users that carry a given username. *)
Definition named (username : string) (users : list User) : list User :=
  filter (fun u => (u_username u =? username)%string) users.

(** The stored records that carry a given id. *)
Definition with_id (recordId : string) (rs : list WorkRecord)
  : list WorkRecord :=
  filter (fun r => (id r =? recordId)%string) rs.

(** The storages the service produces from an empty [localStorage], one
    call after another. *)
Inductive reachable : LocalStore.Storage -> Prop :=
| reach_empty : reachable (LocalStore.mkStorage None None)
| reach_initialize (uuid : string) (now : Z) (st : LocalStore.Storage) :
    reachable st -> reachable (LocalStore.initializeStorage uuid now st)
| reach_register (uuid : string) (now : Z) (name username password : string)
                 (st : LocalStore.Storage) :
    reachable st ->
    reachable (snd (LocalStore.registerUser uuid now name username password st))
| reach_create (uuid : string) (now : Z) (draft : RecordDraft)
               (st : LocalStore.Storage) :
    reachable st -> reachable (LocalStore.createRecord uuid now draft st)
| reach_delete (recordId : string) (st : LocalStore.Storage) :
    reachable st -> reachable (LocalStore.deleteRecord recordId st).

(** [a] sorts at or after [b]: the order of a list sorted newest first. *)
Definition string_ge (a b : string) : Prop := (b <=? a)%string = true.

Definition is_digit (c : ascii) : bool :=
  let n := nat_of_ascii c in ((48 <=? n) && (n <=? 57))%nat.

Fixpoint all_digits (s : string) : bool :=
  match s with
  | EmptyString => true
  | String c s' => is_digit c && all_digits s'
  end.

(** The number that a string of decimal digits denotes. *)
Fixpoint digits_acc (acc : Z) (s : string) : Z :=
  match s with
  | EmptyString => acc
  | String c s' =>
      digits_acc (acc * 10 + (Z.of_nat (nat_of_ascii c) - 48))%Z s'
  end.

Definition digits_value (s : string) : Z := digits_acc 0 s.

(** [s] writes [x] with two decimal places: a minus sign when [x] is
    negative, one or more digits, a point and two digits, which together
    denote the number of hundredths nearest to [|x|]. *)
Definition written_to_hundredths (x : Q) (s : string) : Prop :=
  exists sign whole frac : string,
    s = (sign ++ whole ++ "." ++ frac)%string /\
    sign = (if Qle_bool 0 x then EmptyString else "-"%string) /\
    whole <> EmptyString /\ all_digits whole = true /\
    String.length frac = 2%nat /\ all_digits frac = true /\
    (Qabs x * 100 - (1 # 2)
       < inject_Z (digits_value whole * 100 + digits_value frac)
       <= Qabs x * 100 + (1 # 2))%Q.

(** The pay the calculator assigns to a record of the given mode, type,
    quantity and two-ids flag. *)
Definition pay_of (m : RecordMode) (t : IndividualType) (q : Z)
           (two : option bool) : Q :=
  match m, t with
  | INDIVIDUAL, PARCEL => parcelValue (calculateIndividual q 0)
  | INDIVIDUAL, COLLECTION => collectionValue (calculateIndividual 0 q)
  | _, _ =>
      calculateDaily (match two with Some b => b | None => false end) q
  end.

(** A group holds the records of its month, in their order, and their sum:
    what the loop of [groupedRecords] keeps true of the group stored under
    [key] once the records [done] are processed. *)
Definition group_ok (done : list WorkRecord) (key : string)
           (g : MonthlyGroup) : Prop :=
  monthKey g = key /\
  records g = filter (fun r => (month_of r =? key)%string) done /\
  records g <> [] /\
  total g = sum_values (records g).

Definition groups_ok (done : list WorkRecord)
           (groups : Js.object MonthlyGroup) : Prop :=
  NoDup (map fst groups) /\
  Forall (fun kg => group_ok done (fst kg) (snd kg)) groups /\
  (forall r, In r done -> In (month_of r) (map fst groups)) /\
  Permutation (flat_map records (Js.values groups)) done.

(** ** Further code of the sources *)

(** *** [generateUUID] ([types.ts]) *)

(** [x | 0]: the fraction is dropped and the integer wraps to 32 bits. *)
Definition toInt32 (x : Q) : Z :=
  let t := if Qle_bool 0 x then Qfloor x else (- Qfloor (- x))%Z in
  ((t + 2147483648) mod 4294967296 - 2147483648)%Z.

(** [v.toString(16)] for an integer [v]. *)
Definition toString16 (v : Z) : string :=
  HexadecimalString.NilZero.string_of_int (Z.to_hex_int v).

(** The function given to [replace(/[xy]/g, ...)], on the matched
    character [c] and with [x] the number [Math.random()] returns. *)
Definition uuid_char (c : ascii) (x : Q) : string :=
  let r := toInt32 (x * 16) in
  let v := if Ascii.eqb c "x" then r else Z.lor (Z.land r 3) 8 in
  toString16 v.

(** [template.replace(/[xy]/g, ...)]; [random k] is what the [k]-th call of
    [Math.random()] returns. *)
Fixpoint replace_xy (template : string) (random : nat -> Q) (k : nat)
  : string :=
  match template with
  | EmptyString => EmptyString
  | String c rest =>
      if (Ascii.eqb c "x" || Ascii.eqb c "y")%bool
      then (uuid_char c (random k) ++ replace_xy rest random (S k))%string
      else String c (replace_xy rest random k)
  end.

(** [randomUUID] is [Some] of what [crypto.randomUUID()] returns where the
    browser has it, [None] in older environments. *)
Definition generateUUID (randomUUID : option string) (random : nat -> Q)
  : string :=
  match randomUUID with
  | Some uuid => uuid
  | None => replace_xy "xxxxxxxx-xxxx-4xxx-yxxx-xxxxxxxxxxxx" random 0
  end.

(** *** The service as the views call it

    The views reach the service through the functions the module exports;
    both variants export the same ones. *)
Record StorageService (S : Type) : Type := mkStorageService {
  svc_authenticate : string -> string -> UserRole -> S -> option User;
  svc_registerUser : string -> string -> string -> S -> Js.result User * S;
  svc_getAllDrivers : S -> list User;
  svc_getUserRecords : string -> S -> list WorkRecord
}.
Arguments mkStorageService {S} _ _ _ _.
Arguments svc_authenticate {S} s _ _ _ _.
Arguments svc_registerUser {S} s _ _ _ _.
Arguments svc_getAllDrivers {S} s _.
Arguments svc_getUserRecords {S} s _ _.

(** The browser-storage service; [uuid] and [now] are what its next
    registration reads from the environment. *)
Definition local_service (uuid : string) (now : Z)
  : StorageService LocalStore.Storage :=
  mkStorageService
    LocalStore.authenticate
    (LocalStore.registerUser uuid now)
    LocalStore.getAllDrivers
    LocalStore.getUserRecords.

Definition hosted_service (uuid : string) (now : Z)
  : StorageService HostedStore.Database :=
  mkStorageService
    HostedStore.authenticate
    (HostedStore.registerUser uuid now)
    HostedStore.getAllDrivers
    HostedStore.getUserRecords.

(** *** [LoginView.handleSubmit] ([App.tsx]) *)

Inductive Tab : Type := TabDriver | TabAdmin.

Record LoginForm : Type := mkLoginForm {
  l_activeTab : Tab;
  l_isRegistering : bool;
  l_name : string;
  l_username : string;
  l_password : string
}.

(** What the form ends with: [onLogin(user)] or [setError(msg)]. *)
Inductive SubmitOutcome : Type :=
| LoggedIn (user : User)
| ShowError (msg : string).

Definition handleSubmit {S : Type} (svc : StorageService S) (f : LoginForm)
           (st : S) : SubmitOutcome * S :=
  let on_error (msg : string) :=
    ShowError (if Js.truthy msg then msg
               else "Erro ao conectar com o servidor."%string) in
  if (match l_activeTab f with TabDriver => true | TabAdmin => false end
      && l_isRegistering f)%bool
  then
    if (negb (Js.truthy (l_name f)) || negb (Js.truthy (l_username f))
        || negb (Js.truthy (l_password f)))%bool
    then (on_error "Preencha todos os campos"%string, st)
    else
      match svc_registerUser svc (l_name f) (l_username f) (l_password f) st with
      | (Js.Ok newUser, st') => (LoggedIn newUser, st')
      | (Js.Throw msg, st') => (on_error msg, st')
      end
  else
    let role := match l_activeTab f with
                | TabDriver => DRIVER
                | TabAdmin => ADMIN
                end in
    match svc_authenticate svc (l_username f) (l_password f) role st with
    | Some user => (LoggedIn user, st)
    | None => (on_error "Credenciais inválidas."%string, st)
    end.

(** *** [DashboardView.stats] ([App.tsx]) *)






(** *** [AdminView] ([App.tsx]) *)

(** [s.toLowerCase()] on ASCII letters. *)
Definition lower (c : ascii) : ascii :=
  let n := nat_of_ascii c in
  if ((65 <=? n) && (n <=? 90))%nat then ascii_of_nat (n + 32) else c.

Fixpoint toLowerCase (s : string) : string :=
  match s with
  | EmptyString => EmptyString
  | String c s' => String (lower c) (toLowerCase s')
  end.

(** [s.includes(t)]. *)
Fixpoint includes (s t : string) : bool :=
  (String.prefix t s ||
   match s with
   | EmptyString => false
   | String _ s' => includes s' t
   end)%bool.

Definition filteredDrivers (drivers : list User) (searchTerm : string)
  : list User :=
  filter (fun d =>
            (includes (toLowerCase (u_name d)) (toLowerCase searchTerm) ||
             includes (toLowerCase (u_username d)) (toLowerCase searchTerm))%bool)
         drivers.

(** The records [handleGlobalExport] gathers, driver after driver, and the
    file it hands to the browser; [today] is the date part of
    [new Date().toISOString()]. *)
Definition allRecords {S : Type} (svc : StorageService S)
           (drivers : list User) (st : S) : list WorkRecord :=
  fold_left (fun all d => all ++ svc_getUserRecords svc (u_id d) st) drivers [].

Definition handleGlobalExport {S : Type} (svc : StorageService S)
           (today : string) (drivers : list User) (st : S) : Download :=
  generateCSV (allRecords svc drivers st)
              ("Payload_GLOBAL_EXPORT_" ++ today)%string.

(** *** Vocabulary of the further properties *)

Definition is_hex (c : ascii) : bool :=
  let n := nat_of_ascii c in
  ((48 <=? n) && (n <=? 57) || (97 <=? n) && (n <=? 102))%nat.

(** How a character [c] of a generated id relates to the character [t] of
    the template at its place. *)
Definition uuid_char_ok (t c : ascii) : Prop :=
  if Ascii.eqb t "x" then is_hex c = true
  else if Ascii.eqb t "y"
       then In c ["8"; "9"; "a"; "b"]%char
       else c = t.

(** The seed user of [initializeStorage], whatever its id and creation
    time. *)
Definition is_seed_admin (u : User) : Prop :=
  u_name u = "System Admin"%string /\ u_username u = "admin"%string /\
  u_passwordHash u = "EVRI01"%string /\ u_role u = ADMIN.

(** * Properties *)

(** ** Pay calculator *)

Section PayCalculator.

Local Open Scope Q_scope.

Lemma calculateDaily_one_id (quantity : Z) :
  calculateDaily false quantity = 180.00.
Proof. reflexivity. Qed.

Lemma calculateDaily_low (quantity : Z) :
  (quantity < 150)%Z -> calculateDaily true quantity = 260.00.
Proof.
  intros H. unfold calculateDaily. simpl negb. cbv iota.
  apply Z.ltb_lt in H. now rewrite H.
Qed.

Lemma calculateDaily_middle (quantity : Z) :
  (150 <= quantity <= 250)%Z -> calculateDaily true quantity = 300.00.
Proof.
  intros [Hlo Hhi]. unfold calculateDaily. simpl negb. cbv iota.
  apply Z.ltb_ge in Hlo. apply Z.leb_le in Hhi. now rewrite Hlo, Hhi.
Qed.

Lemma calculateDaily_high (quantity : Z) :
  (quantity > 250)%Z -> calculateDaily true quantity = 360.00.
Proof.
  intros H. unfold calculateDaily. simpl negb. cbv iota.
  assert (Hlo : (quantity <? 150)%Z = false) by (apply Z.ltb_ge; lia).
  assert (Hhi : (quantity <=? 250)%Z = false) by (apply Z.leb_gt; lia).
  now rewrite Hlo, Hhi.
Qed.

(** C1. [calculateDaily false q] is 180.00 for every [q];
    [calculateDaily true q] is 260.00 below 150, 300.00 from 150 to 250
    (both bounds in the middle tier) and 360.00 above 250; the four
    boundary values 149, 150, 250 and 251 are as the specification lists
    them. *)
Theorem calculateDaily_tiers (isTwoIDs : bool) (quantity : Z) :
  (isTwoIDs = false -> calculateDaily isTwoIDs quantity = 180.00) /\
  (isTwoIDs = true -> (quantity < 150)%Z ->
     calculateDaily isTwoIDs quantity = 260.00) /\
  (isTwoIDs = true -> (150 <= quantity <= 250)%Z ->
     calculateDaily isTwoIDs quantity = 300.00) /\
  (isTwoIDs = true -> (quantity > 250)%Z ->
     calculateDaily isTwoIDs quantity = 360.00) /\
  calculateDaily true 149 = 260.00 /\
  calculateDaily true 150 = 300.00 /\
  calculateDaily true 250 = 300.00 /\
  calculateDaily true 251 = 360.00.
Proof.
  repeat split; try reflexivity; intros ->.
  - apply calculateDaily_one_id.
  - apply calculateDaily_low.
  - apply calculateDaily_middle.
  - apply calculateDaily_high.
Qed.

Lemma calculateDaily_tiers_witness :
  calculateDaily false 7 = 180.00 /\
  calculateDaily true 100 = 260.00 /\
  calculateDaily true 200 = 300.00 /\
  calculateDaily true 1000 = 360.00.
Proof.
  split; [ exact (proj1 (calculateDaily_tiers false 7) eq_refl) | ].
  split; [ apply (proj1 (proj2 (calculateDaily_tiers true 100)));
           [ reflexivity | lia ] | ].
  split; [ apply (proj1 (proj2 (proj2 (calculateDaily_tiers true 200))));
           [ reflexivity | lia ] | ].
  apply (proj1 (proj2 (proj2 (proj2 (calculateDaily_tiers true 1000)))));
    [ reflexivity | lia ].
Defined.

(** The daily pay takes one of the four rates, whatever the arguments. *)
Lemma calculateDaily_range (isTwoIDs : bool) (quantity : Z) :
  In (calculateDaily isTwoIDs quantity) [180.00; 260.00; 300.00; 360.00].
Proof.
  unfold calculateDaily.
  destruct isTwoIDs; simpl negb; cbv iota; [ | now left ].
  destruct (quantity <? 150)%Z; [ right; now left | ].
  destruct (quantity <=? 250)%Z; simpl; auto.
Qed.

(** The rate never decreases with the quantity. *)
Lemma calculateDaily_monotone (isTwoIDs : bool) (q1 q2 : Z) :
  (q1 <= q2)%Z ->
  calculateDaily isTwoIDs q1 <= calculateDaily isTwoIDs q2.
Proof.
  intros H. unfold calculateDaily.
  destruct isTwoIDs; simpl negb; cbv iota; [ | apply Qle_refl ].
  destruct (Z.ltb_spec q1 150), (Z.ltb_spec q2 150),
           (Z.leb_spec q1 250), (Z.leb_spec q2 250);
    try lia; try apply Qle_refl; now vm_compute.
Qed.



End PayCalculator.

(** ** Sorting and the order of strings *)

Section SortFacts.

Context {A : Type} (comparefn : A -> A -> comparison).

(** [x] may stand before [y] in an array sorted by [comparefn]. *)
Let before (x y : A) : Prop := comparefn x y <> Gt.

Hypothesis comparefn_total : forall x y, comparefn x y = Gt -> before y x.
Hypothesis comparefn_trans : forall x y z, before x y -> before y z -> before x z.

Lemma sort_insert_perm (x : A) (l : list A) :
  Permutation (Js.sort_insert comparefn x l) (x :: l).
Proof.
  induction l as [ | y l IH ]; simpl; [ reflexivity | ].
  destruct (comparefn x y); try reflexivity.
  rewrite IH. apply perm_swap.
Qed.

Lemma sort_perm (l : list A) : Permutation (Js.sort comparefn l) l.
Proof.
  induction l as [ | x l IH ]; simpl; [ reflexivity | ].
  rewrite sort_insert_perm. now constructor.
Qed.

Lemma sort_insert_sorted (x : A) (l : list A) :
  StronglySorted before l ->
  StronglySorted before (Js.sort_insert comparefn x l).
Proof.
  induction 1 as [ | y l Hl IH Hy ]; simpl.
  - constructor; constructor.
  - destruct (comparefn x y) eqn:E.
    + constructor; [ now constructor | ].
      constructor; [ unfold before; congruence | ].
      eapply Forall_impl; [ | exact Hy ].
      intros z Hz. apply comparefn_trans with y; [ unfold before; congruence | exact Hz ].
    + constructor; [ now constructor | ].
      constructor; [ unfold before; congruence | ].
      eapply Forall_impl; [ | exact Hy ].
      intros z Hz. apply comparefn_trans with y; [ unfold before; congruence | exact Hz ].
    + constructor; [ exact IH | ].
      apply Forall_forall. intros z Hz.
      apply (Permutation_in _ (sort_insert_perm x l)) in Hz.
      destruct Hz as [ <- | Hz ].
      * now apply comparefn_total.
      * rewrite Forall_forall in Hy. now apply Hy.
Qed.

Lemma sort_sorted (l : list A) : StronglySorted before (Js.sort comparefn l).
Proof.
  induction l as [ | x l IH ]; simpl; [ constructor | ].
  now apply sort_insert_sorted.
Qed.

End SortFacts.

Lemma StronglySorted_weaken {A : Type} (R R' : A -> A -> Prop) (l : list A) :
  (forall a b, R a b -> R' a b) -> StronglySorted R l -> StronglySorted R' l.
Proof.
  intros HR. induction 1 as [ | x l Hl IH Hx ]; constructor; auto.
  eapply Forall_impl; [ | exact Hx ]. auto.
Qed.

Lemma string_compare_le_trans (a b c : string) :
  (a ?= b)%string <> Gt -> (b ?= c)%string <> Gt -> (a ?= c)%string <> Gt.
Proof.
  intros Hab Hbc.
  destruct (a ?= b)%string eqn:Eab; [ | | congruence ].
  - apply String.compare_eq_iff in Eab. now subst.
  - destruct (b ?= c)%string eqn:Ebc; [ | | congruence ].
    + apply String.compare_eq_iff in Ebc. subst. congruence.
    + apply String_as_OT.cmp_lt in Eab, Ebc.
      assert (H : String_as_OT.lt a c) by (eapply String_as_OT.lt_trans; eauto).
      apply String_as_OT.cmp_lt in H. unfold String_as_OT.cmp in H. congruence.
Qed.

Lemma string_ge_iff (a b : string) :
  string_ge a b <-> Js.localeCompare b a <> Gt.
Proof.
  unfold string_ge, String.leb, Js.localeCompare.
  destruct (b ?= a)%string; split; congruence.
Qed.

(** Sorting by [(a, b) => key(b).localeCompare(key(a))] yields a
    permutation whose keys never increase. *)
Lemma sort_by_key_desc {A : Type} (key : A -> string) (l : list A) :
  let sorted := Js.sort (fun a b => Js.localeCompare (key b) (key a)) l in
  Permutation sorted l /\
  StronglySorted (fun a b => string_ge (key a) (key b)) sorted.
Proof.
  split; [ apply sort_perm | ].
  eapply StronglySorted_weaken; [ | apply sort_sorted ].
  - intros a b H. now apply string_ge_iff.
  - intros x y E. unfold Js.localeCompare in *.
    rewrite String.compare_antisym, E. discriminate.
  - intros x y z H1 H2. unfold Js.localeCompare in *.
    eapply string_compare_le_trans; eauto.
Qed.

Lemma filter_all {A : Type} (f : A -> bool) (l : list A) :
  (forall x, In x l -> f x = true) -> filter f l = l.
Proof.
  induction l as [ | x l IH ]; simpl; intros H; [ reflexivity | ].
  rewrite (H x) by now left. f_equal. apply IH. intros y Hy. apply H. now right.
Qed.

Lemma filter_nil_iff {A : Type} (f : A -> bool) (l : list A) :
  filter f l = [] <-> (forall x, In x l -> f x = false).
Proof.
  induction l as [ | x l IH ]; simpl.
  - split; [ intros _ y [] | reflexivity ].
  - destruct (f x) eqn:E; split.
    + discriminate.
    + intros H. specialize (H x (or_introl eq_refl)). congruence.
    + intros H y [ <- | Hy ]; [ exact E | now apply IH ].
    + intros H. apply IH. intros y Hy. apply H. now right.
Qed.

(** ** The service over browser storage *)

Section LocalStoreFacts.

Import Js LocalStore.

Lemma named_nil_iff (username : string) (users : list User) :
  named username users = [] <->
  ~ exists u, In u users /\ u_username u = username.
Proof.
  unfold named. rewrite filter_nil_iff. split.
  - intros H (u & Hu & E). specialize (H u Hu).
    apply String.eqb_neq in H. contradiction.
  - intros H u Hu. apply String.eqb_neq. intros E. apply H. now exists u.
Qed.

Lemma existsb_named (username : string) (users : list User) :
  existsb (fun u => (u_username u =? username)%string) users = true <->
  exists u, In u users /\ u_username u = username.
Proof.
  rewrite existsb_exists.
  split; intros (u & Hu & E); exists u; split; auto; now apply String.eqb_eq.
Qed.

(** C5. Whatever the stored users: when a user with the username is
    present, [registerUser] throws the duplicate-username error and leaves
    the storage as it was, so the users carrying that username are the
    same as before; otherwise it returns a new user with role DRIVER and
    the given name, username and password, stored after the others.  A
    second registration of the same username always fails and changes
    nothing. *)
Theorem registerUser_rejects_duplicates
  (uuid : string) (now : Z) (name username password : string) (st : Storage) :
  let out := registerUser uuid now name username password st in
  ((exists u, In u (getStoredUsers st) /\ u_username u = username) ->
     fst out = Throw "Usuário já existe." /\
     snd out = st /\
     named username (getStoredUsers (snd out)) =
       named username (getStoredUsers st)) /\
  (~ (exists u, In u (getStoredUsers st) /\ u_username u = username) ->
     exists u, fst out = Ok u /\
       u = mkUser uuid name username password DRIVER now /\
       u_role u = DRIVER /\
       getStoredUsers (snd out) = getStoredUsers st ++ [u] /\
       pt_records_v2 (snd out) = pt_records_v2 st) /\
  (forall uuid' now' name' password',
     registerUser uuid' now' name' username password' (snd out) =
       (Throw "Usuário já existe.", snd out)).
Proof.
  intros out. subst out. unfold registerUser.
  destruct (existsb _ (getStoredUsers st)) eqn:E.
  - apply existsb_named in E. repeat split; try reflexivity.
    + intros H. contradiction.
    + intros uuid' now' name' password'. cbn [snd].
      apply existsb_named in E. now rewrite E.
  - split; [ | split ].
    + intros H. apply existsb_named in H. congruence.
    + intros _. eexists. repeat split; reflexivity.
    + intros uuid' now' name' password'. cbn [snd].
      unfold saveStoredUsers, getStoredUsers at 1. cbn [pt_users_v2].
      rewrite existsb_app. cbn [existsb u_username].
      rewrite String.eqb_refl, orb_true_l, orb_true_r. reflexivity.
Qed.

Lemma registerUser_rejects_duplicates_witness :
  let ana := mkUser "id-1" "Ana" "ana" "pw" DRIVER 1 in
  let st := mkStorage (Some [ana]) None in
  registerUser "id-2" 2 "Ana Two" "ana" "other" st
    = (Throw "Usuário já existe.", st) /\
  fst (registerUser "id-2" 2 "Bia" "bia" "pw" st)
    = Ok (mkUser "id-2" "Bia" "bia" "pw" DRIVER 2).
Proof.
  intros ana st. split.
  - destruct (registerUser_rejects_duplicates "id-2" 2 "Ana Two" "ana" "other" st)
      as ((Hr & Hs & _) & _).
    + exists ana. split; [ now left | reflexivity ].
    + rewrite (surjective_pairing (registerUser _ _ _ _ _ _)).
      rewrite Hr, Hs. reflexivity.
  - destruct (registerUser_rejects_duplicates "id-2" 2 "Bia" "bia" "pw" st)
      as (_ & (u & Hr & -> & _) & _).
    + intros (u & [ <- | [] ] & E). discriminate E.
    + exact Hr.
Defined.

Lemma length_named_app (username : string) (l1 l2 : list User) :
  List.length (named username (l1 ++ l2)) =
  (List.length (named username l1) + List.length (named username l2))%nat.
Proof. unfold named. now rewrite filter_app, List.length_app. Qed.

Lemma initializeStorage_absent (uuid : string) (now : Z) (st : Storage) :
  named "admin" (getStoredUsers st) = [] ->
  initializeStorage uuid now st =
  saveStoredUsers
    (getStoredUsers st ++ [mkUser uuid "System Admin" "admin" "EVRI01" ADMIN now])
    st.
Proof.
  intros H. unfold initializeStorage.
  destruct (existsb _ (getStoredUsers st)) eqn:E; [ | reflexivity ].
  apply existsb_named in E. apply named_nil_iff in H. contradiction.
Qed.

Lemma initializeStorage_present (uuid : string) (now : Z) (st : Storage) :
  named "admin" (getStoredUsers st) <> [] -> initializeStorage uuid now st = st.
Proof.
  intros H. unfold initializeStorage.
  destruct (existsb _ (getStoredUsers st)) eqn:E; [ reflexivity | ].
  exfalso. apply H. apply named_nil_iff. intros Hex.
  apply existsb_named in Hex. congruence.
Qed.

(** One run leaves as many users called [admin] as before, or one when
    there was none. *)
Lemma initializeStorage_count (uuid : string) (now : Z) (st : Storage) :
  List.length (named "admin" (getStoredUsers (initializeStorage uuid now st))) =
  Nat.max 1 (List.length (named "admin" (getStoredUsers st))).
Proof.
  destruct (named "admin" (getStoredUsers st)) eqn:E.
  - rewrite initializeStorage_absent by exact E.
    unfold saveStoredUsers, getStoredUsers at 1. cbn [pt_users_v2].
    rewrite length_named_app, E. reflexivity.
  - rewrite initializeStorage_present by (rewrite E; discriminate).
    rewrite E. simpl. lia.
Qed.

Lemma initializeStorage_idempotent
      (uuid1 uuid2 : string) (now1 now2 : Z) (st : Storage) :
  initializeStorage uuid2 now2 (initializeStorage uuid1 now1 st) =
  initializeStorage uuid1 now1 st.
Proof.
  apply initializeStorage_present. intros E.
  apply (f_equal (@List.length User)) in E.
  rewrite initializeStorage_count in E. cbn [List.length] in E. lia.
Qed.




Lemma length_named_unique (username : string) (users : list User) :
  NoDup (map u_username users) ->
  (List.length (named username users) <= 1)%nat.
Proof.
  induction users as [ | u users IH ]; simpl; intros H; [ lia | ].
  inversion H as [ | ? ? Hnotin Hnd ]; subst.
  destruct (String.eqb_spec (u_username u) username) as [ E | _ ];
    [ | now apply IH ].
  replace (named username users) with (@nil User); [ simpl; lia | ].
  symmetry. apply named_nil_iff. intros (v & Hv & Ev).
  apply Hnotin. rewrite E, <- Ev. now apply in_map.
Qed.

Lemma NoDup_usernames_snoc (users : list User) (u : User) :
  NoDup (map u_username users) ->
  named (u_username u) users = [] ->
  NoDup (map u_username (users ++ [u])).
Proof.
  intros Hnd Hnew. rewrite map_app. simpl.
  apply (Permutation_NoDup (Permutation_cons_append _ _)).
  constructor; [ | exact Hnd ].
  intros Hin. apply in_map_iff in Hin. destruct Hin as (v & Ev & Hv).
  apply named_nil_iff in Hnew. apply Hnew. now exists v.
Qed.

(** The service keeps usernames unique: a storage it has produced holds no
    two users with one username. *)
Lemma reachable_unique_usernames (st : Storage) :
  reachable st -> NoDup (map u_username (getStoredUsers st)).
Proof.
  induction 1 as [ | uuid now st _ IH | uuid now name username password st _ IH
                   | uuid now draft st _ IH | recordId st _ IH ].
  - constructor.
  - destruct (named "admin" (getStoredUsers st)) eqn:E.
    + rewrite initializeStorage_absent by exact E.
      unfold saveStoredUsers, getStoredUsers at 1. cbn [pt_users_v2].
      now apply NoDup_usernames_snoc.
    + rewrite initializeStorage_present by (rewrite E; discriminate). exact IH.
  - unfold registerUser.
    destruct (existsb _ (getStoredUsers st)) eqn:E; cbn [snd]; [ exact IH | ].
    unfold saveStoredUsers, getStoredUsers at 1. cbn [pt_users_v2].
    apply NoDup_usernames_snoc; [ exact IH | ]. cbn [u_username].
    apply named_nil_iff. intros Hex. apply existsb_named in Hex. congruence.
  - exact IH.
  - exact IH.
Qed.

(** From a storage the service has produced, two runs of the seeding step
    leave exactly one user called [admin]. *)
Lemma reachable_one_admin (uuid1 uuid2 : string) (now1 now2 : Z) (st : Storage) :
  reachable st ->
  List.length
    (named "admin"
       (getStoredUsers
          (initializeStorage uuid2 now2 (initializeStorage uuid1 now1 st)))) =
  1%nat.
Proof.
  intros H. rewrite initializeStorage_idempotent, initializeStorage_count.
  pose proof (length_named_unique "admin" _ (reachable_unique_usernames st H)).
  lia.
Qed.

Lemma getStoredRecords_deleteRecord (recordId : string) (st : Storage) :
  getStoredRecords (deleteRecord recordId st) =
  filter (fun r => negb (id r =? recordId)%string) (getStoredRecords st).
Proof. reflexivity. Qed.

(** C7. [deleteRecord] only rewrites the record list.  When no stored
    record has the id the list read back is the same; when one record has
    it, that record is dropped and the others stay in place, whoever owns
    it; in every case the records left are those with another id. *)
Theorem deleteRecord_removes_by_id (recordId : string) (st : Storage) :
  let st' := deleteRecord recordId st in
  pt_users_v2 st' = pt_users_v2 st /\
  ((forall r, In r (getStoredRecords st) -> id r <> recordId) ->
     getStoredRecords st' = getStoredRecords st) /\
  (forall before r after,
     getStoredRecords st = before ++ r :: after ->
     id r = recordId ->
     (forall x, In x (before ++ after) -> id x <> recordId) ->
     getStoredRecords st' = before ++ after) /\
  (forall r, In r (getStoredRecords st') <->
             In r (getStoredRecords st) /\ id r <> recordId).
Proof.
  intros st'. subst st'. rewrite getStoredRecords_deleteRecord.
  split; [ reflexivity | ]. split; [ | split ].
  - intros H. apply filter_all. intros x Hx.
    apply negb_true_iff, String.eqb_neq. now apply H.
  - intros before r after E Hid Hothers. rewrite E, filter_app. simpl.
    rewrite Hid, String.eqb_refl. simpl. rewrite <- filter_app.
    apply filter_all. intros x Hx.
    apply negb_true_iff, String.eqb_neq. now apply Hothers.
  - intros r. rewrite filter_In, negb_true_iff, String.eqb_neq. reflexivity.
Qed.

Lemma deleteRecord_removes_by_id_witness :
  let r1 := mkWorkRecord "r1" "ana" "2024-03-05" INDIVIDUAL PARCEL 3 3.00
                         None None [] 10 in
  let r2 := mkWorkRecord "r2" "bia" "2024-03-06" DAILY DAILY_FLAT 1 180.00
                         None (Some false) [] 11 in
  let st := mkStorage None (Some [r1; r2]) in
  getStoredRecords (deleteRecord "zz" st) = [r1; r2] /\
  getStoredRecords (deleteRecord "r2" st) = [r1].
Proof.
  intros r1 r2 st. split.
  - apply (deleteRecord_removes_by_id "zz" st).
    intros r [ <- | [ <- | [] ] ]; discriminate.
  - apply (proj1 (proj2 (proj2 (deleteRecord_removes_by_id "r2" st)))
             [r1] r2 []); try reflexivity.
    intros x [ <- | [] ]. discriminate.
Defined.

(** C8. [getUserRecords] returns the stored records whose [userId] is the
    one asked for, each as often as it is stored and no other record, with
    dates that never increase along the list. *)
Theorem getUserRecords_owned_newest_first (userId' : string) (st : Storage) :
  let out := getUserRecords userId' st in
  Permutation out
    (filter (fun r => (userId r =? userId')%string) (getStoredRecords st)) /\
  (forall r, In r out <-> In r (getStoredRecords st) /\ userId r = userId') /\
  StronglySorted (fun a b => string_ge (date a) (date b)) out.
Proof.
  intros out. subst out. unfold getUserRecords.
  destruct (sort_by_key_desc date
              (filter (fun r => (userId r =? userId')%string)
                      (getStoredRecords st))) as [Hperm Hsorted].
  split; [ exact Hperm | ]. split; [ | exact Hsorted ].
  intros r. split.
  - intros H. apply (Permutation_in _ Hperm), filter_In in H.
    destruct H as [Hin Heq]. apply String.eqb_eq in Heq. now split.
  - intros [Hin Heq]. apply (Permutation_in _ (Permutation_sym Hperm)).
    apply filter_In. split; [ exact Hin | now apply String.eqb_eq ].
Qed.

End LocalStoreFacts.

(** ** Record entry *)

Section RecordEntry.

Local Open Scope Q_scope.

Lemma gt_zero_inv (n : option Z) :
  Js.gt_zero n = true -> n = Some (Js.num_or_zero n) /\ (0 < Js.num_or_zero n)%Z.
Proof.
  destruct n as [ z | ]; simpl; [ | discriminate ].
  intros H. apply Z.ltb_lt in H. now split.
Qed.

(** The drafts of an INDIVIDUAL submission: a PARCEL draft when the parcels
    field parses to a positive number, then a COLLECTION draft when the
    collections field does. *)
Lemma handleSave_individual (user : User) (f : CalculatorForm)
      (drafts : list RecordDraft) :
  f_mode f = INDIVIDUAL ->
  handleSave user f = Calls drafts ->
  drafts =
    (if Js.gt_zero (Js.parseInt (f_parcels f)) then
       [mkRecordDraft (u_id user) (f_date f) INDIVIDUAL PARCEL
          (Js.num_or_zero (Js.parseInt (f_parcels f)))
          (inject_Z (Js.num_or_zero (Js.parseInt (f_parcels f))) * 1.00)
          (Some (f_routeId1 f)) (Some false) (f_photos f)]
     else []) ++
    (if Js.gt_zero (Js.parseInt (f_collections f)) then
       [mkRecordDraft (u_id user) (f_date f) INDIVIDUAL COLLECTION
          (Js.num_or_zero (Js.parseInt (f_collections f)))
          (inject_Z (Js.num_or_zero (Js.parseInt (f_collections f))) * 0.80)
          (Some (f_routeId1 f)) (Some false) (f_photos f)]
     else []).
Proof.
  intros Hmode. unfold handleSave. rewrite Hmode.
  destruct (negb (Js.truthy (f_date f))); [ discriminate | ].
  destruct (negb (Js.truthy_num (Js.parseInt (f_parcels f))) &&
            negb (Js.truthy_num (Js.parseInt (f_collections f))))%bool;
    [ discriminate | ].
  intros H. injection H as <-.
  destruct (Js.gt_zero (Js.parseInt (f_parcels f)));
    destruct (Js.gt_zero (Js.parseInt (f_collections f))); reflexivity.
Qed.

(** The draft of a DAILY submission. *)
Lemma handleSave_daily (user : User) (f : CalculatorForm)
      (drafts : list RecordDraft) :
  f_mode f = DAILY ->
  handleSave user f = Calls drafts ->
  exists d, drafts = [d] /\
    d_mode d = DAILY /\ d_type d = DAILY_FLAT /\
    d_isTwoIDs d = Some (f_isTwoIDs f) /\
    d_quantity d =
      (if f_isTwoIDs f then Js.num_or_zero (Js.parseInt (f_dailyQty f))
       else 1%Z) /\
    d_value d =
      calculateDaily (f_isTwoIDs f)
                     (Js.num_or_zero (Js.parseInt (f_dailyQty f))).
Proof.
  intros Hmode. unfold handleSave. rewrite Hmode.
  destruct (negb (Js.truthy (f_date f))); [ discriminate | ].
  destruct (f_isTwoIDs f &&
            (negb (Js.truthy (f_routeId1 f)) || negb (Js.truthy (f_routeId2 f))))%bool;
    [ discriminate | ].
  intros H. injection H as <-. eexists. split; [ reflexivity | ].
  cbn [d_mode d_type d_isTwoIDs d_quantity d_value].
  unfold previewValue. rewrite Hmode. repeat split; reflexivity.
Qed.

(** C9. Every draft that [handleSave] passes to [createRecord] carries the
    value the pay calculator gives for its mode, type, quantity and
    two-ids flag: [quantity * 1.00] for an INDIVIDUAL PARCEL draft,
    [quantity * 0.80] for an INDIVIDUAL COLLECTION draft, both with a
    positive quantity, and [calculateDaily] of the flag and the entered
    quantity for a DAILY draft.  An INDIVIDUAL submission passes at most
    two drafts, one PARCEL draft exactly when the parcels field parses to a
    positive number and one COLLECTION draft exactly when the collections
    field does; a DAILY submission passes one. *)
Theorem handleSave_values_from_calculator
  (user : User) (f : CalculatorForm) (drafts : list RecordDraft) :
  handleSave user f = Calls drafts ->
  Forall (fun d =>
            d_value d =
              pay_of (d_mode d) (d_type d) (d_quantity d) (d_isTwoIDs d))
         drafts /\
  Forall (fun d =>
            (d_mode d = INDIVIDUAL /\ d_type d = PARCEL /\
             (0 < d_quantity d)%Z /\
             Js.parseInt (f_parcels f) = Some (d_quantity d) /\
             d_value d = inject_Z (d_quantity d) * 1.00) \/
            (d_mode d = INDIVIDUAL /\ d_type d = COLLECTION /\
             (0 < d_quantity d)%Z /\
             Js.parseInt (f_collections f) = Some (d_quantity d) /\
             d_value d = inject_Z (d_quantity d) * 0.80) \/
            (d_mode d = DAILY /\ d_type d = DAILY_FLAT /\
             d_isTwoIDs d = Some (f_isTwoIDs f) /\
             d_value d =
               calculateDaily (f_isTwoIDs f)
                 (Js.num_or_zero (Js.parseInt (f_dailyQty f)))))
         drafts /\
  (f_mode f = INDIVIDUAL ->
     (List.length drafts <= 2)%nat /\
     List.length (filter (fun d => match d_type d with PARCEL => true | _ => false end)
                         drafts) =
       (if Js.gt_zero (Js.parseInt (f_parcels f)) then 1 else 0)%nat /\
     List.length (filter (fun d => match d_type d with COLLECTION => true | _ => false end)
                         drafts) =
       (if Js.gt_zero (Js.parseInt (f_collections f)) then 1 else 0)%nat) /\
  (f_mode f = DAILY -> List.length drafts = 1%nat).
Proof.
  intros H. destruct (f_mode f) eqn:Hmode.
  - pose proof (handleSave_individual user f drafts Hmode H) as E.
    destruct (Js.gt_zero (Js.parseInt (f_parcels f))) eqn:Ep;
      destruct (Js.gt_zero (Js.parseInt (f_collections f))) eqn:Ec;
      try (apply gt_zero_inv in Ep; destruct Ep as [Ep1 Ep2]);
      try (apply gt_zero_inv in Ec; destruct Ec as [Ec1 Ec2]);
      subst drafts; simpl;
      (split; [ repeat constructor | ]);
      (split; [ repeat constructor; simpl; tauto | ]);
      (split; [ intros _; repeat split; lia | discriminate ]).
  - destruct (handleSave_daily user f drafts Hmode H)
      as (d & -> & Hm & Ht & Hi & Hq & Hv).
    split; [ | split; [ | split ] ].
    + constructor; [ | constructor ].
      rewrite Hm, Ht, Hi, Hq, Hv. unfold pay_of.
      destruct (f_isTwoIDs f); reflexivity.
    + constructor; [ | constructor ]. right. right. auto.
    + discriminate.
    + reflexivity.
Qed.

Lemma handleSave_values_from_calculator_witness :
  let user := mkUser "u1" "Ana" "ana" "pw" DRIVER 1 in
  let f := mkCalculatorForm INDIVIDUAL "2024-03-05" "3" "4" false
                            "" "101" "" [] in
  let d1 := mkRecordDraft "u1" "2024-03-05" INDIVIDUAL PARCEL 3
                          (inject_Z 3 * 1.00) (Some "101"%string)
                          (Some false) [] in
  let d2 := mkRecordDraft "u1" "2024-03-05" INDIVIDUAL COLLECTION 4
                          (inject_Z 4 * 0.80) (Some "101"%string)
                          (Some false) [] in
  handleSave user f = Calls [d1; d2] /\
  d_value d1 = pay_of INDIVIDUAL PARCEL 3 (Some false) /\
  d_value d2 = pay_of INDIVIDUAL COLLECTION 4 (Some false).
Proof.
  intros user f d1 d2.
  assert (E : handleSave user f = Calls [d1; d2]) by reflexivity.
  split; [ exact E | ].
  pose proof (handleSave_values_from_calculator user f [d1; d2] E) as (Hv & _).
  inversion Hv as [ | ? ? H1 Hv' ]; subst.
  inversion Hv' as [ | ? ? H2 _ ]; subst.
  split; [ exact H1 | exact H2 ].
Defined.

End RecordEntry.

(** ** CSV export *)

Section CsvFacts.

Local Open Scope string_scope.

Lemma all_digits_app (a b : string) :
  all_digits (a ++ b) = all_digits a && all_digits b.
Proof.
  induction a as [ | c a IH ]; simpl; [ reflexivity | ].
  now rewrite IH, andb_assoc.
Qed.

Lemma all_digits_zeros (k : nat) : all_digits (Js.zeros k) = true.
Proof. induction k; simpl; auto. Qed.

Lemma length_zeros (k : nat) : String.length (Js.zeros k) = k.
Proof. induction k; simpl; auto. Qed.

Lemma length_append (a b : string) :
  String.length (a ++ b) = (String.length a + String.length b)%nat.
Proof. induction a; simpl; auto. Qed.

Lemma all_digits_substring (n m : nat) (s : string) :
  all_digits s = true -> all_digits (substring n m s) = true.
Proof.
  revert n m. induction s as [ | c s IH ]; intros n m H.
  - destruct n, m; reflexivity.
  - simpl in H. apply andb_true_iff in H. destruct H as [Hc Hs].
    destruct n as [ | n ]; [ destruct m as [ | m ] | ]; simpl.
    + reflexivity.
    + rewrite Hc. simpl. now apply IH.
    + now apply IH.
Qed.

Lemma length_substring (n m : nat) (s : string) :
  (n + m <= String.length s)%nat -> String.length (substring n m s) = m.
Proof.
  revert n m. induction s as [ | c s IH ]; intros n m H; simpl in H.
  - assert (n = 0%nat) by lia. assert (m = 0%nat) by lia. now subst.
  - destruct n as [ | n ]; [ destruct m as [ | m ] | ]; simpl.
    + reflexivity.
    + f_equal. apply IH. lia.
    + apply IH. lia.
Qed.

Lemma string_of_uint_digits (d : Decimal.uint) :
  all_digits (NilEmpty.string_of_uint d) = true.
Proof. induction d; simpl; auto. Qed.

(** A non-negative integer prints as one or more digits. *)
Lemma toString_digits (n : Z) :
  (0 <= n)%Z ->
  all_digits (Js.toString n) = true /\ (1 <= String.length (Js.toString n))%nat.
Proof.
  intros Hn. unfold Js.toString.
  destruct n as [ | p | p ]; [ | | lia ]; simpl.
  - split; [ reflexivity | lia ].
  - unfold NilZero.string_of_uint.
    destruct (Pos.to_uint p) eqn:E; simpl;
      try (split; [ try apply string_of_uint_digits; reflexivity | lia ]).
Qed.

Lemma toFixed2_rounds_nonneg (x : Q) :
  (0 <= Qfloor ((if Qle_bool 0 x then x else Qopp x) * 100 + (1 # 2)))%Z.
Proof.
  change 0%Z with (Qfloor 0). apply Qfloor_resp_le.
  assert (H : (0 <= (if Qle_bool 0 x then x else Qopp x))%Q).
  { destruct (Qle_bool 0 x) eqn:E.
    - now apply Qle_bool_iff.
    - destruct (Qlt_le_dec x 0) as [ Hlt | Hle ].
      + apply Qlt_le_weak in Hlt. apply Qopp_le_compat in Hlt. exact Hlt.
      + apply Qle_bool_iff in Hle. congruence. }
  apply Qle_trans with ((if Qle_bool 0 x then x else Qopp x) * 100 + 0)%Q.
  - rewrite Qplus_0_r. apply Qmult_le_0_compat; [ exact H | now vm_compute ].
  - apply Qplus_le_r. now vm_compute.
Qed.

Lemma digits_acc_app (acc : Z) (a b : string) :
  digits_acc acc (a ++ b) = digits_acc (digits_acc acc a) b.
Proof. revert acc. induction a as [ | c a IH ]; simpl; auto. Qed.

Lemma digits_acc_shift (acc : Z) (s : string) :
  digits_acc acc s =
  (acc * 10 ^ Z.of_nat (String.length s) + digits_acc 0 s)%Z.
Proof.
  revert acc. induction s as [ | c s IH ]; intros acc.
  - simpl. lia.
  - cbn [digits_acc String.length]. rewrite IH.
    rewrite (IH (0 * 10 + (Z.of_nat (nat_of_ascii c) - 48))%Z).
    rewrite Nat2Z.inj_succ, Z.pow_succ_r by lia. ring.
Qed.

Lemma digits_acc_zeros (acc : Z) (k : nat) :
  digits_acc acc (Js.zeros k) = (acc * 10 ^ Z.of_nat k)%Z.
Proof.
  revert acc. induction k as [ | k IH ]; intros acc.
  - simpl. lia.
  - cbn [Js.zeros digits_acc]. rewrite IH.
    rewrite Nat2Z.inj_succ, Z.pow_succ_r by lia.
    change (Z.of_nat (nat_of_ascii "0") - 48)%Z with 0%Z. ring.
Qed.

Lemma substring_whole (s : string) : substring 0 (String.length s) s = s.
Proof. induction s as [ | c s IH ]; simpl; [ reflexivity | now rewrite IH ]. Qed.

Lemma substring_split (n : nat) (s : string) :
  (n <= String.length s)%nat ->
  s = substring 0 n s ++ substring n (String.length s - n) s.
Proof.
  revert n. induction s as [ | c s IH ]; intros n H.
  - destruct n; [ reflexivity | simpl in H; lia ].
  - destruct n as [ | n ].
    + rewrite Nat.sub_0_r, substring_whole. reflexivity.
    + cbn [substring append String.length Nat.sub]. f_equal.
      apply IH. simpl in H. lia.
Qed.

(** Evaluates the code of a literal character in the goal. *)
Ltac eval_digit :=
  match goal with
  | |- context [Z.of_nat (nat_of_ascii ?c)] =>
      let v := eval vm_compute in (Z.of_nat (nat_of_ascii c)) in
      change (Z.of_nat (nat_of_ascii c)) with v
  end.

Lemma of_uint_acc_digits (d : Decimal.uint) (acc : positive) :
  Z.pos (Pos.of_uint_acc d acc) =
  digits_acc (Z.pos acc) (NilEmpty.string_of_uint d).
Proof.
  revert acc. induction d; intros acc; cbn [NilEmpty.string_of_uint digits_acc Pos.of_uint_acc];
    [ reflexivity | rewrite IHd; f_equal; eval_digit; lia .. ].
Qed.

Lemma of_uint_digits (d : Decimal.uint) :
  Z.of_N (Pos.of_uint d) = digits_value (NilEmpty.string_of_uint d).
Proof.
  unfold digits_value.
  induction d; cbn [NilEmpty.string_of_uint digits_acc Pos.of_uint];
    [ reflexivity | exact IHd
    | cbn [Z.of_N]; rewrite of_uint_acc_digits; eval_digit; reflexivity .. ].
Qed.

(** The digits [toString] writes for a non-negative integer denote it. *)
Lemma digits_value_toString (n : Z) :
  (0 <= n)%Z -> digits_value (Js.toString n) = n.
Proof.
  intros Hn. unfold Js.toString.
  destruct n as [ | p | p ]; [ reflexivity | | lia ].
  cbn [Z.to_int NilZero.string_of_int]. unfold NilZero.string_of_uint.
  pose proof (DecimalPos.Unsigned.of_to p) as E.
  destruct (Pos.to_uint p) eqn:Ep; try discriminate E;
    rewrite <- of_uint_digits, E; reflexivity.
Qed.

Lemma toFixed2_abs (x : Q) :
  ((if Qle_bool 0 x then x else Qopp x) == Qabs x)%Q.
Proof.
  destruct (Qle_bool 0 x) eqn:E.
  - apply Qle_bool_iff in E. symmetry. now apply Qabs_pos.
  - symmetry. apply Qabs_neg.
    destruct (Qlt_le_dec x 0) as [ Hlt | Hle ]; [ now apply Qlt_le_weak | ].
    apply Qle_bool_iff in Hle. congruence.
Qed.

(** [toFixed(2)] writes the nearest number of hundredths with two decimal
    places. *)
Lemma toFixed2_written_to_hundredths (x : Q) :
  written_to_hundredths x (Js.toFixed2 x).
Proof.
  unfold Js.toFixed2.
  set (y := if Qle_bool 0 x then x else Qopp x).
  set (n := Qfloor (y * 100 + (1 # 2))).
  assert (Hn : (0 <= n)%Z) by apply toFixed2_rounds_nonneg.
  destruct (toString_digits n Hn) as [Hd Hl].
  set (m := if (String.length (Js.toString n) <=? 2)%nat
            then Js.zeros (3 - String.length (Js.toString n)) ++ Js.toString n
            else Js.toString n).
  assert (Hm : all_digits m = true /\ (3 <= String.length m)%nat /\
               digits_value m = n).
  { subst m. destruct (Nat.leb_spec (String.length (Js.toString n)) 2).
    - rewrite all_digits_app, all_digits_zeros, Hd, length_append, length_zeros.
      split; [ reflexivity | ]. split; [ lia | ].
      unfold digits_value. rewrite digits_acc_app, digits_acc_zeros.
      now apply digits_value_toString.
    - split; [ exact Hd | ]. split; [ lia | now apply digits_value_toString ]. }
  destruct Hm as (Hmd & Hml & Hmv).
  exists (if Qle_bool 0 x then "" else "-"),
         (substring 0 (String.length m - 2) m),
         (substring (String.length m - 2) 2 m).
  split; [ reflexivity | ]. split; [ reflexivity | ].
  split.
  { intros E. apply (f_equal String.length) in E.
    rewrite length_substring in E by lia. simpl in E. lia. }
  split; [ now apply all_digits_substring | ].
  split; [ apply length_substring; lia | ].
  split; [ now apply all_digits_substring | ].
  assert (Hv : (digits_value (substring 0 (String.length m - 2) m) * 100 +
                digits_value (substring (String.length m - 2) 2 m))%Z = n).
  { pose proof (substring_split (String.length m - 2) m) as Hsplit.
    replace (String.length m - (String.length m - 2))%nat with 2%nat
      in Hsplit by lia.
    set (whole := substring 0 (String.length m - 2) m) in *.
    set (frac := substring (String.length m - 2) 2 m) in *.
    assert (Hf : String.length frac = 2%nat)
      by (apply length_substring; lia).
    transitivity (digits_value (whole ++ frac)).
    - unfold digits_value.
      rewrite digits_acc_app, (digits_acc_shift (digits_acc 0 whole) frac), Hf.
      reflexivity.
    - rewrite <- Hsplit by lia. exact Hmv. }
  rewrite Hv. rewrite <- (toFixed2_abs x). fold y. subst n. split.
  - pose proof (Qlt_floor (y * 100 + (1 # 2))) as Hlt.
    rewrite inject_Z_plus in Hlt. change (inject_Z 1) with 1%Q in Hlt.
    lra.
  - apply Qfloor_le.
Qed.

(** The text of one exported row. *)
Lemma csv_row_joined (r : WorkRecord) :
  Js.join "," (csv_row r) =
  date r ++ "," ++ IndividualType_str (type r) ++ "," ++
  RecordMode_str (mode r) ++ "," ++ Js.toString (quantity r) ++ "," ++
  Js.toFixed2 (value r) ++ "," ++ Js.or_else (routeNames r) "-" ++ "," ++ id r.
Proof. reflexivity. Qed.

(** C4. The exported text is the header line
    [Data,Tipo,Modo,Qtd,Valor,Rotas,ID] followed by one line per record, in
    the order of the records; a line holds the seven fields of its record
    joined by commas, [Valor] being the value written by [toFixed(2)] with
    two decimal places and [Rotas] being [-] when [routeNames] is absent.
    The record of the specification exports as
    [2024-03-05,PARCEL,INDIVIDUAL,3,3.00,-,abc]. *)
Theorem generateCSV_layout (records : list WorkRecord) (fileName : string) :
  (exists lines : list string,
     blob_text (generateCSV records fileName) =
       Js.join Js.LF ("Data,Tipo,Modo,Qtd,Valor,Rotas,ID" :: lines) /\
     Forall2
       (fun r line =>
          exists valor rotas : string,
            line = date r ++ "," ++ IndividualType_str (type r) ++ "," ++
                   RecordMode_str (mode r) ++ "," ++
                   Js.toString (quantity r) ++ "," ++
                   valor ++ "," ++ rotas ++ "," ++ id r /\
            valor = Js.toFixed2 (value r) /\
            written_to_hundredths (value r) valor /\
            (routeNames r = None -> rotas = "-"))
       records lines) /\
  (forall (owner : string) (two : option bool) (pics : list string) (ts : Z),
     blob_text
       (generateCSV
          [mkWorkRecord "abc" owner "2024-03-05" INDIVIDUAL PARCEL 3 3.00%Q
                        None two pics ts] fileName) =
     "Data,Tipo,Modo,Qtd,Valor,Rotas,ID" ++ Js.LF ++
     "2024-03-05,PARCEL,INDIVIDUAL,3,3.00,-,abc").
Proof.
  split; [ | reflexivity ].
  exists (map (fun row => Js.join "," row) (map csv_row records)).
  split; [ reflexivity | ].
  induction records as [ | r records IH ]; simpl; constructor; [ | exact IH ].
  exists (Js.toFixed2 (value r)), (Js.or_else (routeNames r) "-").
  split; [ apply csv_row_joined | ].
  split; [ reflexivity | ].
  split; [ apply toFixed2_written_to_hundredths | ].
  intros E. now rewrite E.
Qed.

Lemma generateCSV_layout_witness :
  let r := mkWorkRecord "abc" "ana" "2024-03-05" INDIVIDUAL PARCEL 3 3.00%Q
                        None None [] 0 in
  exists line,
    blob_text (generateCSV [r] "Payload_ana_2024-03") =
      Js.join Js.LF ["Data,Tipo,Modo,Qtd,Valor,Rotas,ID"; line] /\
    exists valor, line = "2024-03-05,PARCEL,INDIVIDUAL,3," ++ valor ++ ",-,abc".
Proof.
  intros r.
  destruct (generateCSV_layout [r] "Payload_ana_2024-03")
    as ((lines & Htext & Hrows) & _).
  destruct lines as [ | line [ | line' lines ] ];
    [ inversion Hrows | | inversion Hrows as [ | ? ? ? ? _ Hnil ]; inversion Hnil ].
  inversion Hrows as [ | ? ? ? ? (valor & rotas & Hline & _ & _ & Hrotas) _ ].
  exists line. split; [ exact Htext | ].
  exists valor. rewrite Hline, (Hrotas eq_refl). reflexivity.
Defined.

(** C10. The [Rotas] field is [-] for every falsy [routeNames], the empty
    string as well as the absent value, and the text of [routeNames]
    otherwise; a record stored with [routeNames = ""] exports [,-,] and
    not an empty field. *)
Theorem csv_rotas_falsy :
  (forall r, routeNames r = Some "" \/ routeNames r = None ->
     nth 5 (csv_row r) "" = "-" /\
     Js.join "," (csv_row r) =
       date r ++ "," ++ IndividualType_str (type r) ++ "," ++
       RecordMode_str (mode r) ++ "," ++ Js.toString (quantity r) ++ "," ++
       Js.toFixed2 (value r) ++ ",-," ++ id r) /\
  (forall r, nth 5 (csv_row r) "" = "" -> False) /\
  (forall r s, routeNames r = Some s -> s <> "" -> nth 5 (csv_row r) "" = s) /\
  (let r := mkWorkRecord "abc" "ana" "2024-03-05" INDIVIDUAL PARCEL 3 3.00%Q
                         (Some "") (Some false) [] 0 in
   routeNames r = Some "" /\
   csvContent [r] =
     "Data,Tipo,Modo,Qtd,Valor,Rotas,ID" ++ Js.LF ++
     "2024-03-05,PARCEL,INDIVIDUAL,3,3.00,-,abc").
Proof.
  split; [ | split; [ | split ] ].
  - intros r [ E | E ]; rewrite csv_row_joined; simpl; rewrite E; simpl;
      split; reflexivity.
  - intros r. simpl. destruct (routeNames r) as [ [ | c s ] | ]; discriminate.
  - intros r s E Hs. simpl. rewrite E. destruct s; [ contradiction | reflexivity ].
  - split; reflexivity.
Qed.

Lemma csv_rotas_falsy_witness :
  let r := mkWorkRecord "r9" "bia" "2024-05-01" INDIVIDUAL COLLECTION 2 1.60%Q
                        (Some "") (Some false) [] 7 in
  nth 5 (csv_row r) "" = "-".
Proof.
  intros r. apply (proj1 csv_rotas_falsy r). left. reflexivity.
Defined.

End CsvFacts.

(** ** Objects as maps *)

Section ObjectFacts.

Context {A : Type}.

Lemma get_None_iff (o : Js.object A) (key : string) :
  Js.get o key = None <-> ~ In key (map fst o).
Proof.
  induction o as [ | [k v] o IH ]; simpl.
  - split; [ intros _ [] | reflexivity ].
  - destruct (String.eqb_spec k key) as [ -> | Hne ].
    + split; [ discriminate | intros H; exfalso; apply H; now left ].
    + rewrite IH. split; [ intros H [ E | Hin ]; auto | intros H Hin; apply H; now right ].
Qed.

Lemma set_absent (o : Js.object A) (key : string) (v : A) :
  ~ In key (map fst o) -> Js.set o key v = o ++ [(key, v)].
Proof.
  induction o as [ | [k w] o IH ]; simpl; intros H; [ reflexivity | ].
  destruct (String.eqb_spec k key) as [ -> | Hne ].
  - exfalso. apply H. now left.
  - f_equal. apply IH. intros Hin. apply H. now right.
Qed.

Lemma update_absent (o : Js.object A) (key : string) (f : A -> A) :
  ~ In key (map fst o) -> Js.update o key f = o.
Proof.
  induction o as [ | [k w] o IH ]; simpl; intros H; [ reflexivity | ].
  destruct (String.eqb_spec k key) as [ -> | Hne ].
  - exfalso. apply H. now left.
  - f_equal. apply IH. intros Hin. apply H. now right.
Qed.

Lemma update_last (o : Js.object A) (key : string) (v : A) (f : A -> A) :
  ~ In key (map fst o) ->
  Js.update (o ++ [(key, v)]) key f = o ++ [(key, f v)].
Proof.
  induction o as [ | [k w] o IH ]; simpl; intros H.
  - now rewrite String.eqb_refl.
  - destruct (String.eqb_spec k key) as [ -> | Hne ].
    + exfalso. apply H. now left.
    + f_equal. apply IH. intros Hin. apply H. now right.
Qed.

Lemma update_update (o : Js.object A) (key : string) (f g : A -> A) :
  Js.update (Js.update o key f) key g = Js.update o key (fun x => g (f x)).
Proof.
  induction o as [ | [k w] o IH ]; simpl; [ reflexivity | ].
  destruct (String.eqb_spec k key) as [ -> | Hne ]; simpl.
  - now rewrite String.eqb_refl.
  - destruct (String.eqb_spec k key); [ contradiction | ]. now rewrite IH.
Qed.

Lemma update_keys (o : Js.object A) (key : string) (f : A -> A) :
  map fst (Js.update o key f) = map fst o.
Proof.
  induction o as [ | [k w] o IH ]; simpl; [ reflexivity | ].
  destruct (k =? key)%string; simpl; [ reflexivity | now rewrite IH ].
Qed.

(** With distinct keys, an update touches the one property [key] names. *)
Lemma update_Forall (P Q : string * A -> Prop) (o : Js.object A)
      (key : string) (f : A -> A) :
  NoDup (map fst o) ->
  (forall kv, fst kv <> key -> P kv -> Q kv) ->
  (forall v, P (key, v) -> Q (key, f v)) ->
  Forall P o -> Forall Q (Js.update o key f).
Proof.
  intros Hnd Hother Hsame. induction o as [ | [k w] o IH ]; simpl; intros H.
  - constructor.
  - inversion H as [ | ? ? Hhead Htail ]; subst.
    inversion Hnd as [ | ? ? Hnotin Hnd' ]; subst.
    destruct (String.eqb_spec k key) as [ -> | Hne ].
    + constructor; [ now apply Hsame | ].
      rewrite Forall_forall in *. intros [k' v'] Hin.
      apply Hother; [ | now apply Htail ].
      simpl. intros ->. apply Hnotin.
      change key with (fst (key, v')). now apply in_map.
    + constructor; [ now apply Hother | now apply IH ].
Qed.

End ObjectFacts.

Lemma NoDup_map_eq {A B : Type} (f : A -> B) (l : list A) (x y : A) :
  NoDup (map f l) -> In x l -> In y l -> f x = f y -> x = y.
Proof.
  induction l as [ | a l IH ]; simpl; intros Hnd Hx Hy E; [ contradiction | ].
  inversion Hnd as [ | ? ? Hnotin Hnd' ]; subst.
  destruct Hx as [ -> | Hx ], Hy as [ -> | Hy ]; auto.
  - exfalso. apply Hnotin. rewrite E. now apply in_map.
  - exfalso. apply Hnotin. rewrite <- E. now apply in_map.
Qed.

Lemma sum_values_snoc (rs : list WorkRecord) (r : WorkRecord) :
  sum_values (rs ++ [r]) = (sum_values rs + value r)%Q.
Proof. unfold sum_values. now rewrite map_app, fold_left_app. Qed.

Lemma flat_map_update_push (groups : Js.object MonthlyGroup) (key : string)
      (r : WorkRecord) (f : MonthlyGroup -> MonthlyGroup) :
  (forall g, records (f g) = records g ++ [r]) ->
  In key (map fst groups) ->
  Permutation (flat_map records (Js.values (Js.update groups key f)))
              (flat_map records (Js.values groups) ++ [r]).
Proof.
  intros Hf. unfold Js.values.
  induction groups as [ | [k g] groups IH ]; simpl; [ intros [] | ].
  intros Hin. destruct (String.eqb_spec k key) as [ -> | Hne ]; simpl.
  - rewrite Hf, <- !app_assoc. apply Permutation_app_head.
    apply Permutation_app_comm.
  - rewrite <- app_assoc. apply Permutation_app_head. apply IH.
    destruct Hin as [ E | Hin ]; [ contradiction | exact Hin ].
Qed.

(** ** Monthly history *)

Section HistoryFacts.

Variable toLocaleMonthYear : string -> string.

(** The first record of a month opens its group, after the groups already
    there. *)
Lemma group_step_new (groups : Js.object MonthlyGroup) (r : WorkRecord) :
  ~ In (month_of r) (map fst groups) ->
  group_step toLocaleMonthYear groups r =
  groups ++
  [(month_of r,
    mkMonthlyGroup (month_of r) (Js.capitalize (toLocaleMonthYear (date r)))
                   (0 + value r)%Q [r])].
Proof.
  intros H. unfold group_step. fold (month_of r).
  rewrite (proj2 (get_None_iff groups (month_of r)) H).
  rewrite set_absent by exact H.
  rewrite update_last by exact H.
  rewrite update_last by exact H.
  reflexivity.
Qed.

(** A later record of the month joins the group under its key. *)
Lemma group_step_old (groups : Js.object MonthlyGroup) (r : WorkRecord) :
  In (month_of r) (map fst groups) ->
  group_step toLocaleMonthYear groups r =
  Js.update groups (month_of r)
            (fun g => add_total (value r) (push_record r g)).
Proof.
  intros H. unfold group_step. fold (month_of r).
  destruct (Js.get groups (month_of r)) eqn:E.
  - apply update_update.
  - apply get_None_iff in E. contradiction.
Qed.

Lemma group_ok_other (done : list WorkRecord) (r : WorkRecord)
      (key : string) (g : MonthlyGroup) :
  key <> month_of r -> group_ok done key g -> group_ok (done ++ [r]) key g.
Proof.
  intros Hne (Hk & Hr & Hn & Ht). repeat split; auto.
  rewrite filter_app. simpl.
  destruct (String.eqb_spec (month_of r) key) as [ E | _ ];
    [ congruence | ].
  now rewrite app_nil_r.
Qed.

Lemma group_ok_same (done : list WorkRecord) (r : WorkRecord)
      (g : MonthlyGroup) :
  group_ok done (month_of r) g ->
  group_ok (done ++ [r]) (month_of r) (add_total (value r) (push_record r g)).
Proof.
  intros (Hk & Hr & Hn & Ht). unfold group_ok. simpl.
  repeat split.
  - exact Hk.
  - rewrite filter_app. simpl. rewrite String.eqb_refl. now rewrite Hr.
  - intros E. apply app_eq_nil in E. destruct E as [_ E]. discriminate E.
  - rewrite sum_values_snoc. now rewrite Ht.
Qed.

Lemma group_step_ok (groups : Js.object MonthlyGroup)
      (done : list WorkRecord) (r : WorkRecord) :
  groups_ok done groups -> groups_ok (done ++ [r]) (group_step toLocaleMonthYear groups r).
Proof.
  intros (Hnd & Hall & Hcover & Hperm).
  destruct (in_dec string_dec (month_of r) (map fst groups)) as [ Hin | Hnew ].
  - rewrite group_step_old by exact Hin. repeat split.
    + now rewrite update_keys.
    + eapply update_Forall; [ exact Hnd | | | exact Hall ].
      * intros [k g] Hne Hok. simpl in *. now apply group_ok_other.
      * intros g Hok. simpl in *. now apply group_ok_same.
    + intros r' Hr'. rewrite update_keys.
      apply in_app_or in Hr'. destruct Hr' as [ Hr' | [ <- | [] ] ]; auto.
    + rewrite flat_map_update_push by (auto; reflexivity).
      now apply Permutation_app_tail.
  - rewrite group_step_new by exact Hnew. repeat split.
    + rewrite map_app. simpl.
      apply (Permutation_NoDup (Permutation_cons_append _ _)).
      now constructor.
    + apply Forall_app. split.
      * eapply Forall_impl; [ | exact Hall ].
        intros [k g] Hok. simpl in *. apply group_ok_other; [ | exact Hok ].
        intros ->. apply Hnew.
        destruct Hok as (_ & Hrec & Hne & _).
        destruct (records g) as [ | r0 rest ] eqn:E; [ contradiction | ].
        assert (Hr0 : In r0 (filter (fun x => (month_of x =? month_of r)%string) done))
          by (rewrite <- Hrec; now left).
        apply filter_In in Hr0. destruct Hr0 as [Hr0 Hk].
        apply String.eqb_eq in Hk. rewrite <- Hk. now apply Hcover.
      * constructor; [ | constructor ]. unfold group_ok. simpl.
        repeat split; [ | discriminate ].
        rewrite filter_app. simpl. rewrite String.eqb_refl.
        replace (filter (fun x => (month_of x =? month_of r)%string) done)
          with (@nil WorkRecord); [ reflexivity | ].
        symmetry. apply filter_nil_iff. intros x Hx.
        apply String.eqb_neq. intros E. apply Hnew. rewrite <- E.
        now apply Hcover.
    + intros r' Hr'. rewrite map_app. apply in_or_app.
      apply in_app_or in Hr'. destruct Hr' as [ Hr' | [ <- | [] ] ];
        [ left; now apply Hcover | right; now left ].
    + unfold Js.values in *. rewrite map_app, flat_map_app. simpl.
      now apply Permutation_app_tail.
Qed.

Lemma fold_group_step_ok (rs done : list WorkRecord)
      (groups : Js.object MonthlyGroup) :
  groups_ok done groups ->
  groups_ok (done ++ rs) (fold_left (group_step toLocaleMonthYear) rs groups).
Proof.
  revert done groups. induction rs as [ | r rs IH ]; intros done groups H; simpl.
  - now rewrite app_nil_r.
  - replace (done ++ r :: rs) with ((done ++ [r]) ++ rs)
      by (now rewrite <- app_assoc).
    apply IH. now apply group_step_ok.
Qed.

Lemma groups_ok_start : groups_ok [] [].
Proof.
  repeat split; simpl; try constructor. intros r [].
Qed.

Lemma values_keys (done : list WorkRecord) (groups : Js.object MonthlyGroup) :
  groups_ok done groups ->
  map monthKey (Js.values groups) = map fst groups.
Proof.
  intros (_ & Hall & _). unfold Js.values. rewrite map_map.
  apply map_ext_in. intros [k g] Hin. rewrite Forall_forall in Hall.
  apply (Hall _ Hin).
Qed.

Lemma string_ge_neq_ltb (a b : string) :
  string_ge a b -> a <> b -> (b <? a)%string = true.
Proof.
  unfold string_ge, String.leb, String.ltb. intros H Hne.
  destruct (b ?= a)%string eqn:E; try reflexivity; try discriminate.
  apply String.compare_eq_iff in E. congruence.
Qed.

Lemma StronglySorted_strict {A : Type} (key : A -> string) (l : list A) :
  NoDup (map key l) ->
  StronglySorted (fun a b => string_ge (key a) (key b)) l ->
  StronglySorted (fun a b => (key b <? key a)%string = true) l.
Proof.
  intros Hnd. induction 1 as [ | x l Hl IH Hx ]; constructor.
  - apply IH. now inversion Hnd.
  - inversion Hnd as [ | ? ? Hnotin _ ]; subst.
    rewrite Forall_forall in *. intros y Hy.
    apply string_ge_neq_ltb; [ now apply Hx | ].
    intros E. apply Hnotin. rewrite E. now apply in_map.
Qed.

(** C3. [groupedRecords] partitions the records by the first seven
    characters of their dates: the groups together hold the records, each
    as often as it is listed; a record lies in one group only; no two
    groups share a month key; a group holds the records of its month in
    their order, at least one, and its total is the sum of their values;
    the month keys strictly decrease along the result.  Records dated
    2024-03-05 and 2024-03-20 share the group of 2024-03, whose total is
    the sum of their two values, and a record dated 2024-04-01 is alone in
    the group of 2024-04, which comes first. *)
Theorem groupedRecords_partition (rs : list WorkRecord) :
  let gs := groupedRecords toLocaleMonthYear rs in
  Permutation (flat_map records gs) rs /\
  (forall r, In r rs ->
     exists g, In g gs /\ In r (records g) /\
       forall g', In g' gs -> In r (records g') -> g' = g) /\
  NoDup (map monthKey gs) /\
  Forall (fun g =>
            records g = filter (fun r => (month_of r =? monthKey g)%string) rs /\
            records g <> [] /\
            total g = sum_values (records g)) gs /\
  StronglySorted (fun a b => (monthKey b <? monthKey a)%string = true) gs /\
  (forall r1 r2 r3,
     date r1 = "2024-03-05"%string -> date r2 = "2024-03-20"%string ->
     date r3 = "2024-04-01"%string ->
     groupedRecords toLocaleMonthYear [r1; r2; r3] =
     [ mkMonthlyGroup "2024-04"
         (Js.capitalize (toLocaleMonthYear "2024-04-01"))
         (0 + value r3)%Q [r3];
       mkMonthlyGroup "2024-03"
         (Js.capitalize (toLocaleMonthYear "2024-03-05"))
         (0 + value r1 + value r2)%Q [r1; r2] ]).
Proof.
  intros gs.
  pose proof (fold_group_step_ok rs [] [] groups_ok_start) as Hok.
  simpl in Hok.
  set (groups := fold_left (group_step toLocaleMonthYear) rs []) in *.
  destruct (sort_by_key_desc monthKey (Js.values groups)) as [Hperm Hsorted].
  assert (Hgs : gs = Js.sort (fun a b => Js.localeCompare (monthKey b) (monthKey a))
                             (Js.values groups)) by reflexivity.
  rewrite <- Hgs in Hperm, Hsorted.
  pose proof (values_keys rs groups Hok) as Hkeys.
  destruct Hok as (Hnd & Hall & Hcover & Hflat).
  assert (Hparts : Permutation (flat_map records gs) rs).
  { rewrite <- Hflat. now apply Permutation_flat_map. }
  assert (Hnodup : NoDup (map monthKey gs)).
  { apply (Permutation_NoDup (l := map monthKey (Js.values groups))).
    - apply Permutation_map. now symmetry.
    - now rewrite Hkeys. }
  assert (Hgroups : Forall (fun g => group_ok rs (monthKey g) g) gs).
  { apply (Permutation_Forall (Permutation_sym Hperm)).
    unfold Js.values. apply Forall_map.
    eapply Forall_impl; [ | exact Hall ].
    intros [k g] Hg. simpl in *. destruct Hg as (Hk & Hg). rewrite Hk.
    split; auto. }
  split; [ exact Hparts | ]. split; [ | split; [ exact Hnodup | split; [ | split ] ] ].
  - intros r Hr.
    apply (Permutation_in _ (Permutation_sym Hparts)) in Hr.
    apply in_flat_map in Hr. destruct Hr as (g & Hg & Hrg).
    exists g. split; [ exact Hg | ]. split; [ exact Hrg | ].
    intros g' Hg' Hrg'. rewrite Forall_forall in Hgroups.
    apply (NoDup_map_eq monthKey gs); auto.
    destruct (Hgroups g Hg) as (_ & E & _). destruct (Hgroups g' Hg') as (_ & E' & _).
    rewrite E in Hrg. rewrite E' in Hrg'.
    apply filter_In in Hrg, Hrg'.
    destruct Hrg as [_ Hk]. destruct Hrg' as [_ Hk'].
    apply String.eqb_eq in Hk, Hk'. congruence.
  - eapply Forall_impl; [ | exact Hgroups ].
    intros g (_ & H1 & H2 & H3). auto.
  - now apply StronglySorted_strict.
  - intros r1 r2 r3 H1 H2 H3.
    unfold groupedRecords, group_step. simpl fold_left.
    rewrite H1, H2, H3. reflexivity.
Qed.

End HistoryFacts.

Lemma groupedRecords_partition_witness :
  let r1 := mkWorkRecord "a" "ana" "2024-03-05" INDIVIDUAL PARCEL 3 3.00
                         None None [] 1 in
  let r2 := mkWorkRecord "b" "ana" "2024-03-20" DAILY DAILY_FLAT 1 180.00
                         None (Some false) [] 2 in
  let r3 := mkWorkRecord "c" "ana" "2024-04-01" INDIVIDUAL COLLECTION 5 4.00
                         None None [] 3 in
  map (fun g => (monthKey g, Qred (total g), map id (records g)))
      (groupedRecords (fun d => d) [r1; r2; r3]) =
  [ ("2024-04"%string, 4%Q, ["c"%string]);
    ("2024-03"%string, 183%Q, ["a"%string; "b"%string]) ].
Proof.
  intros r1 r2 r3.
  destruct (groupedRecords_partition (fun d => d) [r1; r2; r3]) as (_ & _ & _ & _ & _ & H).
  rewrite (H r1 r2 r3 eq_refl eq_refl eq_refl). reflexivity.
Defined.

(** ** The service over the hosted database

    The same properties for [services/storage.ts], on a provisioned
    database.  [single()] tells one matching row from none, so the
    statements about usernames ask that a username names at most one
    row. *)

Section HostedStoreFacts.

Import Js HostedStore.

Lemma hosted_single_named (username : string) (rows : list User)
      (ws : option (list WorkRecord)) :
  (List.length (named username rows) <= 1)%nat ->
  data (single (select "users" (users (mkDatabase (Some rows) ws))
                       (fun u => (u_username u =? username)%string))) =
  hd_error (named username rows).
Proof.
  unfold named, select, single. simpl.
  destruct (filter _ rows) as [ | u [ | u' rest ] ]; simpl; intros H;
    try reflexivity; lia.
Qed.

(** An unprovisioned database is left alone by the seeding step, which
    ends without an error. *)
Lemma hosted_seeding_unprovisioned
      (uuid : string) (now : Z) (ws : option (list WorkRecord)) :
  initializeStorage uuid now (mkDatabase None ws) = mkDatabase None ws.
Proof. reflexivity. Qed.

Lemma hosted_seeding_absent
      (uuid : string) (now : Z) (rows : list User)
      (ws : option (list WorkRecord)) :
  named "admin" rows = [] ->
  initializeStorage uuid now (mkDatabase (Some rows) ws) =
  mkDatabase
    (Some (rows ++ [mkUser uuid "System Admin" "admin" "EVRI01" ADMIN now])) ws.
Proof.
  intros E. unfold initializeStorage, select, single, named in *.
  cbn [users data error]. rewrite E. reflexivity.
Qed.

Lemma hosted_seeding_present
      (uuid : string) (now : Z) (rows : list User)
      (ws : option (list WorkRecord)) (u : User) :
  named "admin" rows = [u] ->
  initializeStorage uuid now (mkDatabase (Some rows) ws) =
  mkDatabase (Some rows) ws.
Proof.
  intros E. unfold initializeStorage, select, single, named in *.
  cbn [users data error]. rewrite E. reflexivity.
Qed.

Lemma hosted_seeding_once
      (uuid1 uuid2 : string) (now1 now2 : Z) (rows : list User)
      (ws : option (list WorkRecord)) :
  (List.length (named "admin" rows) <= 1)%nat ->
  let db1 := initializeStorage uuid1 now1 (mkDatabase (Some rows) ws) in
  let db2 := initializeStorage uuid2 now2 db1 in
  db2 = db1 /\
  exists rows', users db2 = Some rows' /\
    List.length (named "admin" rows') = 1%nat.
Proof.
  intros H db1 db2. subst db2 db1.
  destruct (named "admin" rows) as [ | u [ | u' rest ] ] eqn:E;
    [ | | simpl in H; lia ].
  - rewrite (hosted_seeding_absent uuid1 now1 rows ws E).
    assert (E' : named "admin"
                   (rows ++ [mkUser uuid1 "System Admin" "admin" "EVRI01" ADMIN now1])
                 = [mkUser uuid1 "System Admin" "admin" "EVRI01" ADMIN now1]).
    { unfold named in *. rewrite filter_app, E. reflexivity. }
    rewrite (hosted_seeding_present uuid2 now2 _ ws _ E').
    split; [ reflexivity | ]. eexists. split; [ reflexivity | ]. now rewrite E'.
  - rewrite (hosted_seeding_present uuid1 now1 rows ws u E).
    rewrite (hosted_seeding_present uuid2 now2 rows ws u E).
    split; [ reflexivity | ]. eexists. split; [ reflexivity | ]. now rewrite E.
Qed.

Lemma hosted_register_unique
      (uuid : string) (now : Z) (name username password : string)
      (rows : list User) (ws : option (list WorkRecord)) :
  (List.length (named username rows) <= 1)%nat ->
  let db := mkDatabase (Some rows) ws in
  let out := registerUser uuid now name username password db in
  (named username rows <> [] ->
     fst out = Throw "Usuário já existe." /\ snd out = db) /\
  (named username rows = [] ->
     fst out = Ok (mkUser uuid name username password DRIVER now) /\
     snd out =
       mkDatabase
         (Some (rows ++ [mkUser uuid name username password DRIVER now])) ws).
Proof.
  intros H db out. subst out. unfold registerUser. subst db.
  rewrite hosted_single_named by exact H.
  destruct (named username rows) as [ | u rest ]; simpl.
  - split; [ intros Hne; now contradiction Hne | intros _; now split ].
  - split; [ intros _; now split | discriminate ].
Qed.

Lemma hosted_delete_by_id
      (recordId : string) (us : option (list User)) (rows : list WorkRecord) :
  deleteRecord recordId (mkDatabase us (Some rows)) =
  (Ok tt,
   mkDatabase us
     (Some (filter (fun r => negb (id r =? recordId)%string) rows))).
Proof. reflexivity. Qed.

Lemma hosted_records_newest_first
      (userId' : string) (us : option (list User)) (rows : list WorkRecord) :
  let out := getUserRecords userId' (mkDatabase us (Some rows)) in
  Permutation out (filter (fun r => (userId r =? userId')%string) rows) /\
  StronglySorted (fun a b => string_ge (date a) (date b)) out.
Proof.
  apply (sort_by_key_desc date
           (filter (fun r => (userId r =? userId')%string) rows)).
Qed.

(** With two rows called [admin], [single()] reports no single row and
    the seeding step inserts one more. *)
Example hosted_seeding_two_admins :
  let db := mkDatabase
              (Some [mkUser "a" "First" "admin" "x" ADMIN 0;
                     mkUser "b" "Second" "admin" "y" DRIVER 0]) None in
  option_map (fun rows => List.length (named "admin" rows))
             (users (initializeStorage "u1" 1 db)) = Some 3%nat.
Proof. reflexivity. Qed.

End HostedStoreFacts.

(** ** Evaluated examples *)

Example parseInt_examples :
  map Js.parseInt ["12"; "  -7 items"; "0x1F"; "1.5"; ""; "abc"]%string =
  [Some 12; Some (-7); Some 31; Some 1; None; None]%Z.
Proof. reflexivity. Qed.

Example toFixed2_examples :
  map Js.toFixed2 [3.00; 3.2; 0.05; 1234.5; -0.001; 180]%Q =
  ["3.00"; "3.20"; "0.05"; "1234.50"; "-0.00"; "180.00"]%string.
Proof. reflexivity. Qed.

Example getUserRecords_example :
  let r d u := mkWorkRecord d u d INDIVIDUAL PARCEL 1 1.00 None None [] 0 in
  map date
      (LocalStore.getUserRecords "ana"
         (LocalStore.mkStorage None
            (Some [r "2024-03-05" "ana"; r "2024-04-01" "bia";
                   r "2024-04-02" "ana"; r "2024-01-31" "ana"]%string))) =
  ["2024-04-02"; "2024-03-05"; "2024-01-31"]%string.
Proof. reflexivity. Qed.

(** A DAILY submission with one id stores quantity 1 and the flat rate,
    whatever was typed as quantity. *)
Example handleSave_daily_example :
  handleSave (mkUser "u1" "Ana" "ana" "pw" DRIVER 1)
             (mkCalculatorForm DAILY "2024-03-05" "" "" false "200"
                               "101" "" []) =
  Calls [mkRecordDraft "u1" "2024-03-05" DAILY DAILY_FLAT 1 180.00
                       (Some "101"%string) (Some false) []].
Proof. reflexivity. Qed.

(** An INDIVIDUAL submission with no route id stores [routeNames = ""]. *)
Example handleSave_empty_route_example :
  handleSave (mkUser "u1" "Ana" "ana" "pw" DRIVER 1)
             (mkCalculatorForm INDIVIDUAL "2024-03-05" "3" "" false ""
                               "" "" []) =
  Calls [mkRecordDraft "u1" "2024-03-05" INDIVIDUAL PARCEL 3 (inject_Z 3 * 1.00)
                       (Some ""%string) (Some false) []].
Proof. reflexivity. Qed.

(** * Further properties *)

(** ** Sorting commutes with filtering *)

Section SortStable.

Context {A : Type} (comparefn : A -> A -> comparison).

Hypothesis comparefn_total :
  forall x y, comparefn x y = Gt -> comparefn y x <> Gt.
Hypothesis comparefn_trans :
  forall x y z,
    comparefn x y <> Gt -> comparefn y z <> Gt -> comparefn x z <> Gt.

Lemma sort_insert_head (x : A) (l : list A) :
  (forall z, In z l -> comparefn x z <> Gt) ->
  Js.sort_insert comparefn x l = x :: l.
Proof.
  destruct l as [ | y l ]; simpl; intros H; [ reflexivity | ].
  specialize (H y (or_introl eq_refl)).
  destruct (comparefn x y); try reflexivity. congruence.
Qed.

(** A list in order is left as it is. *)
Lemma sort_fixed (l : list A) :
  StronglySorted (fun x y => comparefn x y <> Gt) l ->
  Js.sort comparefn l = l.
Proof.
  induction 1 as [ | x l Hl IH Hx ]; simpl; [ reflexivity | ].
  rewrite IH. apply sort_insert_head. now apply Forall_forall.
Qed.

Lemma sort_insert_filter (p : A -> bool) (x : A) (l : list A) :
  StronglySorted (fun x y => comparefn x y <> Gt) l ->
  filter p (Js.sort_insert comparefn x l) =
  if p x then Js.sort_insert comparefn x (filter p l) else filter p l.
Proof.
  induction 1 as [ | y l Hl IH Hy ]; simpl.
  - destruct (p x); reflexivity.
  - destruct (comparefn x y) eqn:E.
    + simpl. destruct (p x) eqn:Px; [ | reflexivity ].
      symmetry. apply sort_insert_head. intros z Hz.
      assert (Hin : In z (y :: l))
        by (destruct (p y); [ destruct Hz as [ <- | Hz ];
                              [ now left | right; now apply filter_In in Hz ]
                            | right; now apply filter_In in Hz ]).
      destruct Hin as [ <- | Hin ]; [ congruence | ].
      apply comparefn_trans with y; [ congruence | ].
      rewrite Forall_forall in Hy. now apply Hy.
    + simpl. destruct (p x) eqn:Px; [ | reflexivity ].
      symmetry. apply sort_insert_head. intros z Hz.
      assert (Hin : In z (y :: l))
        by (destruct (p y); [ destruct Hz as [ <- | Hz ];
                              [ now left | right; now apply filter_In in Hz ]
                            | right; now apply filter_In in Hz ]).
      destruct Hin as [ <- | Hin ]; [ congruence | ].
      apply comparefn_trans with y; [ congruence | ].
      rewrite Forall_forall in Hy. now apply Hy.
    + simpl. rewrite IH. destruct (p y) eqn:Py, (p x) eqn:Px; simpl;
        try rewrite E; reflexivity.
Qed.

Lemma sort_filter (p : A -> bool) (l : list A) :
  filter p (Js.sort comparefn l) = Js.sort comparefn (filter p l).
Proof.
  induction l as [ | x l IH ]; simpl; [ reflexivity | ].
  rewrite sort_insert_filter
    by (apply sort_sorted; [ exact comparefn_total | exact comparefn_trans ]).
  rewrite IH. destruct (p x); reflexivity.
Qed.

End SortStable.

Lemma desc_total {A : Type} (key : A -> string) (x y : A) :
  Js.localeCompare (key y) (key x) = Gt ->
  Js.localeCompare (key x) (key y) <> Gt.
Proof.
  unfold Js.localeCompare. intros E.
  rewrite String.compare_antisym, E. discriminate.
Qed.

Lemma desc_trans {A : Type} (key : A -> string) (x y z : A) :
  Js.localeCompare (key y) (key x) <> Gt ->
  Js.localeCompare (key z) (key y) <> Gt ->
  Js.localeCompare (key z) (key x) <> Gt.
Proof.
  unfold Js.localeCompare. intros H1 H2.
  eapply string_compare_le_trans; eauto.
Qed.

Lemma sort_desc_filter {A : Type} (key : A -> string) (p : A -> bool)
      (l : list A) :
  filter p (Js.sort (fun a b => Js.localeCompare (key b) (key a)) l) =
  Js.sort (fun a b => Js.localeCompare (key b) (key a)) (filter p l).
Proof.
  apply (sort_filter (fun a b => Js.localeCompare (key b) (key a))).
  - intros x y. apply desc_total.
  - intros x y z. apply desc_trans.
Qed.

Lemma string_compare_refl (s : string) : (s ?= s)%string = Eq.
Proof.
  destruct (s ?= s)%string eqn:E; [ reflexivity | | ];
    pose proof (String.compare_antisym s s) as H; rewrite E in H; discriminate.
Qed.

Lemma sort_desc_same_key {A : Type} (key : A -> string) (d : string)
      (l : list A) :
  (forall x, In x l -> key x = d) ->
  Js.sort (fun a b => Js.localeCompare (key b) (key a)) l = l.
Proof.
  intros H. apply sort_fixed.
  induction l as [ | x l IH ]; constructor.
  - apply IH. intros y Hy. apply H. now right.
  - apply Forall_forall. intros y Hy. unfold Js.localeCompare.
    rewrite (H x (or_introl eq_refl)), (H y (or_intror Hy)).
    rewrite string_compare_refl. discriminate.
Qed.

Lemma filter_comm {A : Type} (p q : A -> bool) (l : list A) :
  filter p (filter q l) = filter q (filter p l).
Proof.
  induction l as [ | x l IH ]; simpl; [ reflexivity | ].
  destruct (q x) eqn:Q, (p x) eqn:P; simpl; rewrite ?Q, ?P, IH; reflexivity.
Qed.

Lemma find_app {A : Type} (f : A -> bool) (l1 l2 : list A) :
  find f (l1 ++ l2) =
  match find f l1 with
  | Some x => Some x
  | None => find f l2
  end.
Proof.
  induction l1 as [ | x l1 IH ]; simpl; [ reflexivity | ].
  destruct (f x); [ reflexivity | exact IH ].
Qed.

Lemma UserRole_eqb_eq (a b : UserRole) : UserRole_eqb a b = true <-> a = b.
Proof. destruct a, b; simpl; split; congruence. Qed.

(** ** The service over browser storage: logins, drivers and records *)

Section LocalServiceFacts.

Import Js LocalStore.

Lemma getStoredUsers_save (users : list User) (st : Storage) :
  getStoredUsers (saveStoredUsers users st) = users.
Proof. reflexivity. Qed.

Lemma authenticate_find (username password : string) (role : UserRole)
      (u : User) :
  ((u_username u =? username)%string && (u_passwordHash u =? password)%string
   && UserRole_eqb (u_role u) role)%bool = true <->
  u_username u = username /\ u_passwordHash u = password /\ u_role u = role.
Proof.
  rewrite !andb_true_iff, !String.eqb_eq, UserRole_eqb_eq. tauto.
Qed.

(** X1. [authenticate] only returns a stored user whose username, password
    and role are the ones given, and it returns nobody exactly when no
    stored user has all three. *)
Theorem authenticate_matches_stored
  (username password : string) (role : UserRole) (st : Storage) :
  (forall u, authenticate username password role st = Some u ->
     In u (getStoredUsers st) /\ u_username u = username /\
     u_passwordHash u = password /\ u_role u = role) /\
  (authenticate username password role st = None <->
   forall u, In u (getStoredUsers st) ->
     ~ (u_username u = username /\ u_passwordHash u = password /\
        u_role u = role)).
Proof.
  unfold authenticate. split.
  - intros u H. apply find_some in H. destruct H as [Hin H].
    apply authenticate_find in H. tauto.
  - split.
    + intros H u Hin Hu. apply (find_none _ _ H) in Hin.
      apply authenticate_find in Hu. simpl in Hin. congruence.
    + intros H.
      destruct (find _ (getStoredUsers st)) as [ u | ] eqn:E; [ | reflexivity ].
      apply find_some in E. destruct E as [Hin E].
      apply authenticate_find in E. exfalso. now apply (H u Hin).
Qed.

Lemma authenticate_matches_stored_witness :
  let ana := mkUser "id-1" "Ana" "ana" "pw" DRIVER 1 in
  let st := mkStorage (Some [ana]) None in
  u_role ana = DRIVER /\ authenticate "ana" "pw" ADMIN st = None.
Proof.
  intros ana st. split.
  - apply (proj1 (authenticate_matches_stored "ana" "pw" DRIVER st) ana).
    reflexivity.
  - apply (proj2 (authenticate_matches_stored "ana" "pw" ADMIN st)).
    intros u [ <- | [] ] (_ & _ & H). discriminate H.
Defined.

(** X2. After a registration that succeeds, the username and password log
    the new user in as DRIVER; they do not log in as ADMIN, and another
    password does not log in. *)
Theorem registerUser_then_authenticate
  (uuid : string) (now : Z) (name username password : string) (st : Storage) :
  named username (getStoredUsers st) = [] ->
  let st' := snd (registerUser uuid now name username password st) in
  authenticate username password DRIVER st' =
    Some (mkUser uuid name username password DRIVER now) /\
  authenticate username password ADMIN st' = None /\
  (forall password' role,
     password' <> password -> authenticate username password' role st' = None).
Proof.
  intros Hnew st'.
  assert (Hst : getStoredUsers st' =
                getStoredUsers st ++ [mkUser uuid name username password DRIVER now]).
  { subst st'. unfold registerUser.
    destruct (existsb _ (getStoredUsers st)) eqn:E; [ | reflexivity ].
    apply existsb_named in E. apply named_nil_iff in Hnew. contradiction. }
  assert (Hold : forall pw role,
             find (fun u => (u_username u =? username)%string
                            && (u_passwordHash u =? pw)%string
                            && UserRole_eqb (u_role u) role)%bool
                  (getStoredUsers st) = None).
  { intros pw role.
    destruct (find _ (getStoredUsers st)) as [ u | ] eqn:E; [ | reflexivity ].
    apply find_some in E. destruct E as [Hin E].
    apply authenticate_find in E. apply named_nil_iff in Hnew.
    exfalso. apply Hnew. exists u. tauto. }
  unfold authenticate. rewrite Hst, !find_app, !Hold. simpl.
  rewrite !String.eqb_refl. simpl. repeat split.
  intros password' role Hne. rewrite find_app, Hold. simpl.
  rewrite String.eqb_refl. simpl.
  destruct (String.eqb_spec password password') as [ E | _ ];
    [ congruence | reflexivity ].
Qed.

Lemma registerUser_then_authenticate_witness :
  authenticate "bia" "pw" DRIVER
    (snd (registerUser "id-2" 2 "Bia" "bia" "pw" (mkStorage None None))) =
  Some (mkUser "id-2" "Bia" "bia" "pw" DRIVER 2).
Proof.
  apply (registerUser_then_authenticate "id-2" 2 "Bia" "bia" "pw"
           (mkStorage None None)).
  reflexivity.
Defined.

(** X3. When no stored user is called [admin], the seeding step makes the
    fixed credential log in as ADMIN; in every case it leaves the logins of
    the other usernames as they were. *)
Theorem initializeStorage_then_authenticate
  (uuid : string) (now : Z) (st : Storage) :
  (named "admin" (getStoredUsers st) = [] ->
   authenticate "admin" "EVRI01" ADMIN (initializeStorage uuid now st) =
     Some (mkUser uuid "System Admin" "admin" "EVRI01" ADMIN now)) /\
  (forall username password role,
     username <> "admin"%string ->
     authenticate username password role (initializeStorage uuid now st) =
     authenticate username password role st).
Proof.
  split.
  - intros Hnew. rewrite initializeStorage_absent by exact Hnew.
    unfold authenticate. rewrite getStoredUsers_save, find_app.
    destruct (find _ (getStoredUsers st)) as [ u | ] eqn:E; [ | reflexivity ].
    apply find_some in E. destruct E as [Hin E].
    apply authenticate_find in E. apply named_nil_iff in Hnew.
    exfalso. apply Hnew. exists u. tauto.
  - intros username password role Hne.
    destruct (named "admin" (getStoredUsers st)) eqn:E.
    + rewrite initializeStorage_absent by exact E.
      unfold authenticate. rewrite getStoredUsers_save, find_app.
      cbn [find u_username u_passwordHash u_role].
      destruct (String.eqb_spec "admin" username) as [ E' | _ ];
        [ congruence | ].
      cbn [andb]. now destruct (find _ (getStoredUsers st)).
    + rewrite initializeStorage_present by (rewrite E; discriminate).
      reflexivity.
Qed.

Lemma initializeStorage_then_authenticate_witness :
  authenticate "admin" "EVRI01" ADMIN
    (initializeStorage "u1" 1 (mkStorage None None)) =
  Some (mkUser "u1" "System Admin" "admin" "EVRI01" ADMIN 1).
Proof.
  apply (initializeStorage_then_authenticate "u1" 1 (mkStorage None None)).
  reflexivity.
Defined.

(** X4. [getAllDrivers] lists the stored users of role DRIVER, in their
    order.  The seeding step and the record operations leave the list as it
    is; a registration that succeeds adds the new user at its end, and one
    that fails leaves it as it is. *)
Theorem getAllDrivers_tracks_registrations
  (uuid : string) (now : Z) (name username password : string)
  (draft : RecordDraft) (recordId : string) (st : Storage) :
  (forall u, In u (getAllDrivers st) <->
             In u (getStoredUsers st) /\ u_role u = DRIVER) /\
  getAllDrivers (initializeStorage uuid now st) = getAllDrivers st /\
  getAllDrivers (createRecord uuid now draft st) = getAllDrivers st /\
  getAllDrivers (deleteRecord recordId st) = getAllDrivers st /\
  (named username (getStoredUsers st) = [] ->
   getAllDrivers (snd (registerUser uuid now name username password st)) =
   getAllDrivers st ++ [mkUser uuid name username password DRIVER now]) /\
  (named username (getStoredUsers st) <> [] ->
   getAllDrivers (snd (registerUser uuid now name username password st)) =
   getAllDrivers st).
Proof.
  split; [ | split; [ | split; [ reflexivity | split; [ reflexivity | split ] ] ] ].
  - intros u. unfold getAllDrivers. rewrite filter_In, UserRole_eqb_eq.
    reflexivity.
  - destruct (named "admin" (getStoredUsers st)) eqn:E.
    + rewrite initializeStorage_absent by exact E.
      unfold getAllDrivers. rewrite getStoredUsers_save, filter_app. simpl.
      now rewrite app_nil_r.
    + rewrite initializeStorage_present by (rewrite E; discriminate).
      reflexivity.
  - intros Hnew. unfold registerUser.
    destruct (existsb _ (getStoredUsers st)) eqn:E.
    + apply existsb_named in E. apply named_nil_iff in Hnew. contradiction.
    + cbn [snd]. unfold getAllDrivers.
      rewrite getStoredUsers_save, filter_app. reflexivity.
  - intros Hold. unfold registerUser.
    destruct (existsb _ (getStoredUsers st)) eqn:E; [ reflexivity | ].
    exfalso. apply Hold. apply named_nil_iff. intros Hex.
    apply existsb_named in Hex. congruence.
Qed.

Lemma getAllDrivers_tracks_registrations_witness :
  let st := initializeStorage "u1" 1 (mkStorage None None) in
  getAllDrivers (snd (registerUser "id-2" 2 "Bia" "bia" "pw" st)) =
  [mkUser "id-2" "Bia" "bia" "pw" DRIVER 2].
Proof.
  intros st.
  apply (proj1 (proj2 (proj2 (proj2 (proj2
           (getAllDrivers_tracks_registrations "id-2" 2 "Bia" "bia" "pw"
              (mkRecordDraft "" "" DAILY DAILY_FLAT 0 0 None None []) "" st)))))).
  reflexivity.
Defined.

End LocalServiceFacts.

Section LocalRecordFacts.

Import Js LocalStore.

Lemma filter_idem {A : Type} (p : A -> bool) (l : list A) :
  filter p (filter p l) = filter p l.
Proof.
  induction l as [ | x l IH ]; simpl; [ reflexivity | ].
  destruct (p x) eqn:P; simpl; rewrite ?P, IH; reflexivity.
Qed.

Lemma getUserRecords_unfold (userId' : string) (st : Storage) :
  getUserRecords userId' st =
  sort (fun a b => localeCompare (date b) (date a))
       (filter (fun r => (userId r =? userId')%string) (getStoredRecords st)).
Proof. reflexivity. Qed.

(** X5. [createRecord] stores the draft last, under the given id and
    time, and leaves the users alone.  The owner's records then are the
    new record together with those the owner had; the records every other
    user reads are the same as before. *)
Theorem createRecord_then_getUserRecords
  (uuid : string) (now : Z) (draft : RecordDraft) (st : Storage) :
  let st' := createRecord uuid now draft st in
  let new := mkWorkRecord uuid (d_userId draft) (d_date draft) (d_mode draft)
                          (d_type draft) (d_quantity draft) (d_value draft)
                          (d_routeNames draft) (d_isTwoIDs draft)
                          (d_photos draft) now in
  pt_users_v2 st' = pt_users_v2 st /\
  getStoredRecords st' = getStoredRecords st ++ [new] /\
  Permutation (getUserRecords (d_userId draft) st')
              (new :: getUserRecords (d_userId draft) st) /\
  (forall other, other <> d_userId draft ->
     getUserRecords other st' = getUserRecords other st).
Proof.
  intros st' new.
  assert (Hst : getStoredRecords st' = getStoredRecords st ++ [new])
    by reflexivity.
  split; [ reflexivity | ]. split; [ exact Hst | ]. split.
  - rewrite !getUserRecords_unfold, Hst, filter_app.
    cbn [filter userId new]. rewrite String.eqb_refl.
    rewrite !sort_perm. rewrite Permutation_app_comm. reflexivity.
  - intros other Hne. rewrite !getUserRecords_unfold, Hst, filter_app.
    cbn [filter userId new].
    destruct (String.eqb_spec (d_userId draft) other) as [ E | _ ];
      [ congruence | ].
    now rewrite app_nil_r.
Qed.

Lemma createRecord_then_getUserRecords_witness :
  let draft := mkRecordDraft "ana" "2024-03-05" INDIVIDUAL PARCEL 3 3.00
                             None (Some false) [] in
  getUserRecords "bia" (createRecord "r1" 10 draft (mkStorage None None)) = [].
Proof.
  intros draft.
  rewrite (proj2 (proj2 (proj2
             (createRecord_then_getUserRecords "r1" 10 draft
                (mkStorage None None)))) "bia"%string).
  - reflexivity.
  - discriminate.
Defined.

(** X6. Deleting a record right after creating it, under an id that no
    stored record had, gives back the record list and every user's
    records. *)
Theorem createRecord_then_deleteRecord
  (uuid : string) (now : Z) (draft : RecordDraft) (st : Storage) :
  (forall r, In r (getStoredRecords st) -> id r <> uuid) ->
  let st' := deleteRecord uuid (createRecord uuid now draft st) in
  getStoredRecords st' = getStoredRecords st /\
  pt_users_v2 st' = pt_users_v2 st /\
  (forall u, getUserRecords u st' = getUserRecords u st).
Proof.
  intros Hfresh st'.
  assert (Hst : getStoredRecords st' = getStoredRecords st).
  { subst st'. rewrite getStoredRecords_deleteRecord.
    change (getStoredRecords (createRecord uuid now draft st))
      with (getStoredRecords st ++
            [mkWorkRecord uuid (d_userId draft) (d_date draft) (d_mode draft)
               (d_type draft) (d_quantity draft) (d_value draft)
               (d_routeNames draft) (d_isTwoIDs draft) (d_photos draft) now]).
    rewrite filter_app. cbn [filter id]. rewrite String.eqb_refl.
    cbn [negb]. rewrite app_nil_r. apply filter_all. intros x Hx.
    apply negb_true_iff, String.eqb_neq. now apply Hfresh. }
  split; [ exact Hst | ]. split; [ reflexivity | ].
  intros u. now rewrite !getUserRecords_unfold, Hst.
Qed.

Lemma createRecord_then_deleteRecord_witness :
  let draft := mkRecordDraft "ana" "2024-03-05" INDIVIDUAL PARCEL 3 3.00
                             None (Some false) [] in
  getStoredRecords
    (deleteRecord "r1" (createRecord "r1" 10 draft (mkStorage None None))) = [].
Proof.
  intros draft.
  apply (createRecord_then_deleteRecord "r1" 10 draft (mkStorage None None)).
  intros r [].
Defined.

(** X7. Deleting the same id again changes nothing, and two deletions give
    the same storage in either order. *)
Theorem deleteRecord_idempotent_commutes (a b : string) (st : Storage) :
  deleteRecord a (deleteRecord a st) = deleteRecord a st /\
  deleteRecord a (deleteRecord b st) = deleteRecord b (deleteRecord a st).
Proof.
  unfold deleteRecord, saveStoredRecords. cbn [pt_users_v2].
  unfold getStoredRecords at 1 3 4. cbn [pt_records_v2].
  split; f_equal; f_equal; [ apply filter_idem | apply filter_comm ].
Qed.

(** X8. A deletion takes the record out of its owner's history and keeps
    the other records of the history in their order. *)
Theorem getUserRecords_after_deleteRecord
  (userId' recordId : string) (st : Storage) :
  getUserRecords userId' (deleteRecord recordId st) =
  filter (fun r => negb (id r =? recordId)%string) (getUserRecords userId' st).
Proof.
  rewrite !getUserRecords_unfold, getStoredRecords_deleteRecord.
  rewrite (sort_desc_filter date). f_equal. apply filter_comm.
Qed.

(** X9. The records of one day come out of [getUserRecords] in the order
    they are stored in: equal dates are not reordered. *)
Theorem getUserRecords_same_day_order (userId' day : string) (st : Storage) :
  filter (fun r => (date r =? day)%string) (getUserRecords userId' st) =
  filter (fun r => (date r =? day)%string)
         (filter (fun r => (userId r =? userId')%string) (getStoredRecords st)).
Proof.
  rewrite getUserRecords_unfold, (sort_desc_filter date).
  apply sort_desc_same_key with day.
  intros x Hx. apply filter_In in Hx. now apply String.eqb_eq.
Qed.

Lemma length_filter_implies {A : Type} (p q : A -> bool) (l : list A) :
  (forall x, In x l -> p x = true -> q x = true) ->
  (List.length (filter p l) <= List.length (filter q l))%nat.
Proof.
  induction l as [ | x l IH ]; simpl; intros H; [ lia | ].
  assert (IH' := IH (fun y Hy => H y (or_intror Hy))).
  destruct (p x) eqn:P.
  - rewrite (H x (or_introl eq_refl) P). simpl. lia.
  - destruct (q x); simpl; lia.
Qed.

Lemma reachable_admins_seeded (st : Storage) :
  reachable st ->
  forall u, In u (getStoredUsers st) -> u_role u = ADMIN -> is_seed_admin u.
Proof.
  induction 1 as [ | uuid now st _ IH | uuid now name username password st _ IH
                   | uuid now draft st _ IH | recordId st _ IH ];
    intros u Hin Hrole.
  - destruct Hin.
  - destruct (named "admin" (getStoredUsers st)) eqn:E.
    + rewrite initializeStorage_absent in Hin by exact E.
      unfold saveStoredUsers, getStoredUsers at 1 in Hin.
      cbn [pt_users_v2] in Hin. apply in_app_or in Hin.
      destruct Hin as [ Hin | [ <- | [] ] ]; [ now apply IH | ].
      repeat split.
    + rewrite initializeStorage_present in Hin by (rewrite E; discriminate).
      now apply IH.
  - unfold registerUser in Hin.
    destruct (existsb _ (getStoredUsers st)); cbn [snd] in Hin;
      [ now apply IH | ].
    unfold saveStoredUsers, getStoredUsers at 1 in Hin.
    cbn [pt_users_v2] in Hin. apply in_app_or in Hin.
    destruct Hin as [ Hin | [ <- | [] ] ]; [ now apply IH | discriminate Hrole ].
  - now apply IH.
  - now apply IH.
Qed.

(** X10. In a storage the service has produced from an empty one, the
    only users of role ADMIN are seed users, there is at most one of them,
    and a login as ADMIN succeeds only with username [admin] and password
    [EVRI01]: registration never makes an administrator. *)
Theorem reachable_admin_is_seed (st : Storage) :
  reachable st ->
  (forall u, In u (getStoredUsers st) -> u_role u = ADMIN -> is_seed_admin u) /\
  (List.length (filter (fun u => UserRole_eqb (u_role u) ADMIN)
                       (getStoredUsers st)) <= 1)%nat /\
  (forall username password u,
     authenticate username password ADMIN st = Some u ->
     username = "admin"%string /\ password = "EVRI01"%string /\
     is_seed_admin u).
Proof.
  intros H. pose proof (reachable_admins_seeded st H) as Hseed.
  split; [ exact Hseed | ]. split.
  - apply Nat.le_trans
      with (List.length (named "admin" (getStoredUsers st))).
    + apply length_filter_implies. intros u Hin Hrole.
      apply UserRole_eqb_eq in Hrole.
      destruct (Hseed u Hin Hrole) as (_ & E & _). now apply String.eqb_eq.
    + apply length_named_unique. now apply reachable_unique_usernames.
  - intros username password u Hu. unfold authenticate in Hu.
    apply find_some in Hu. destruct Hu as [Hin Hu].
    rewrite !andb_true_iff, !String.eqb_eq, UserRole_eqb_eq in Hu.
    destruct Hu as [[Eu Ep] Er].
    pose proof (Hseed u Hin Er) as Hs. destruct Hs as (Hn & Hun & Hp & Hr).
    repeat split; congruence.
Qed.

Lemma reachable_admin_is_seed_witness :
  let st := snd (registerUser "id-2" 2 "Bia" "bia" "pw"
                   (initializeStorage "u1" 1 (mkStorage None None))) in
  (List.length (filter (fun u => UserRole_eqb (u_role u) ADMIN)
                       (getStoredUsers st)) <= 1)%nat.
Proof.
  intros st. apply (reachable_admin_is_seed st).
  apply reach_register. apply reach_initialize. apply reach_empty.
Defined.

End LocalRecordFacts.

(** ** Record entry: validation, ownership and the preview *)

Section RecordEntryFacts.

Local Open Scope Q_scope.

Lemma truthy_false_iff (s : string) : Js.truthy s = false <-> s = EmptyString.
Proof. destruct s; simpl; split; congruence. Qed.

Lemma handleSave_needs_date (user : User) (f : CalculatorForm) :
  f_date f = EmptyString -> handleSave user f = Alert "Selecione uma data".
Proof. intros E. unfold handleSave. now rewrite E. Qed.

(** X11. [handleSave] calls [createRecord] only when the form has a date,
    and every draft it passes carries the id of the signed-in user and the
    date, mode and photos of the form; without a date it alerts and passes
    nothing. *)
Theorem handleSave_drafts_owned
  (user : User) (f : CalculatorForm) (drafts : list RecordDraft) :
  (f_date f = EmptyString -> handleSave user f = Alert "Selecione uma data") /\
  (handleSave user f = Calls drafts ->
   f_date f <> EmptyString /\
   Forall (fun d => d_userId d = u_id user /\ d_date d = f_date f /\
                    d_mode d = f_mode f /\ d_photos d = f_photos f)
          drafts).
Proof.
  split; [ apply handleSave_needs_date | ].
  intros H. split.
  - intros E. rewrite (handleSave_needs_date user f E) in H. discriminate H.
  - destruct (f_mode f) eqn:Hmode.
    + rewrite (handleSave_individual user f drafts Hmode H).
      destruct (Js.gt_zero (Js.parseInt (f_parcels f)));
        destruct (Js.gt_zero (Js.parseInt (f_collections f)));
        repeat constructor.
    + revert H. unfold handleSave. rewrite Hmode.
      destruct (negb (Js.truthy (f_date f))); [ discriminate | ].
      destruct (f_isTwoIDs f && _)%bool; [ discriminate | ].
      intros H. injection H as <-. repeat constructor.
Qed.

Lemma handleSave_drafts_owned_witness :
  let user := mkUser "u1" "Ana" "ana" "pw" DRIVER 1 in
  let f := mkCalculatorForm DAILY "" "" "" false "" "" "" [] in
  handleSave user f = Alert "Selecione uma data".
Proof.
  intros user f. apply (proj1 (handleSave_drafts_owned user f [])).
  reflexivity.
Defined.

(** X12. [handleSave] passes validation and yet creates no record exactly
    when the form has a date and is in INDIVIDUAL mode, neither field
    parses to a positive number and at least one parses to a negative
    number. *)
Theorem handleSave_saves_nothing (user : User) (f : CalculatorForm) :
  handleSave user f = Calls [] <->
  f_date f <> EmptyString /\ f_mode f = INDIVIDUAL /\
  (forall n, Js.parseInt (f_parcels f) = Some n -> (n <= 0)%Z) /\
  (forall n, Js.parseInt (f_collections f) = Some n -> (n <= 0)%Z) /\
  ((exists n, Js.parseInt (f_parcels f) = Some n /\ (n < 0)%Z) \/
   (exists n, Js.parseInt (f_collections f) = Some n /\ (n < 0)%Z)).
Proof.
  unfold handleSave.
  destruct (Js.truthy (f_date f)) eqn:Hd; cbn [negb].
  2:{ apply truthy_false_iff in Hd. split; [ discriminate | tauto ]. }
  assert (Hdate : f_date f <> EmptyString)
    by (intros E; rewrite E in Hd; discriminate Hd).
  destruct (f_mode f).
  - destruct (Js.parseInt (f_parcels f)) as [ p | ],
             (Js.parseInt (f_collections f)) as [ c | ];
      cbn [Js.truthy_num Js.gt_zero Js.num_or_zero];
      repeat match goal with
             | |- context [(?z =? 0)%Z] =>
                 let Hz := fresh "Hz" in destruct (Z.eqb_spec z 0) as [ Hz | Hz ]
             | |- context [(0 <? ?z)%Z] =>
                 let Hz := fresh "Hz" in destruct (Z.ltb_spec 0 z) as [ Hz | Hz ]
             end;
      cbn [negb andb app];
      (split;
       [ intros Hcalls; try discriminate Hcalls;
         (split; [ exact Hdate | ]); (split; [ reflexivity | ]);
         (split; [ intros k E; try discriminate E; injection E as <-; lia | ]);
         (split; [ intros k E; try discriminate E; injection E as <-; lia | ]);
         try (left; eexists; split; [ reflexivity | lia ]);
         try (right; eexists; split; [ reflexivity | lia ])
       | intros (_ & _ & Hp & Hc & Hneg);
         try reflexivity; exfalso;
         try (specialize (Hp _ eq_refl)); try (specialize (Hc _ eq_refl));
         destruct Hneg as [ (k & E & Hk) | (k & E & Hk) ];
         try discriminate E; try (injection E as <-); lia ]).
  - split.
    + destruct (f_isTwoIDs f && _)%bool; discriminate.
    + intros (_ & E & _). discriminate E.
Qed.

Lemma handleSave_saves_nothing_witness :
  handleSave (mkUser "u1" "Ana" "ana" "pw" DRIVER 1)
             (mkCalculatorForm INDIVIDUAL "2024-03-05" "-5" "" false ""
                               "" "" []) = Calls [].
Proof.
  apply handleSave_saves_nothing.
  split; [ discriminate | ]. split; [ reflexivity | ].
  split; [ intros n E; vm_compute in E; injection E as <-; lia | ].
  split; [ intros n E; vm_compute in E; discriminate E | ].
  left. exists (-5)%Z. split; [ reflexivity | lia ].
Defined.

Lemma Qplus_nil_l (x : Q) : 0 + x == x.
Proof. ring. Qed.

(** X13. What the form previews is what it saves.  A DAILY submission
    saves one record whose value is the previewed value; an INDIVIDUAL
    submission in which no field parses to a negative number saves records
    whose values add up to the previewed value. *)
Theorem handleSave_saves_preview
  (user : User) (f : CalculatorForm) (drafts : list RecordDraft) :
  handleSave user f = Calls drafts ->
  (f_mode f = DAILY -> map d_value drafts = [previewValue f]) /\
  (f_mode f = INDIVIDUAL ->
   (0 <= Js.num_or_zero (Js.parseInt (f_parcels f)))%Z ->
   (0 <= Js.num_or_zero (Js.parseInt (f_collections f)))%Z ->
   fold_right Qplus 0 (map d_value drafts) == previewValue f).
Proof.
  intros H. split.
  - intros Hmode. revert H. unfold handleSave. rewrite Hmode.
    destruct (negb (Js.truthy (f_date f))); [ discriminate | ].
    destruct (f_isTwoIDs f && _)%bool; [ discriminate | ].
    intros H. injection H as <-. reflexivity.
  - intros Hmode Hp Hc.
    rewrite (handleSave_individual user f drafts Hmode H).
    unfold previewValue, calculateIndividual. rewrite Hmode.
    cbn [pay_total].
    destruct (Js.parseInt (f_parcels f)) as [ p | ],
             (Js.parseInt (f_collections f)) as [ c | ];
      cbn [Js.gt_zero Js.num_or_zero] in *;
      repeat match goal with
             | |- context [(0 <? ?z)%Z] =>
                 let Hz := fresh "Hz" in destruct (Z.ltb_spec 0 z) as [ Hz | Hz ]
             end;
      cbn [app map fold_right d_value];
      repeat match goal with
             | Hle : (?z <= 0)%Z, Hge : (0 <= ?z)%Z |- _ =>
                 assert (z = 0%Z) by lia; subst z; clear Hle
             end;
      change (inject_Z 0) with 0; ring.
Qed.

Lemma handleSave_saves_preview_witness :
  let user := mkUser "u1" "Ana" "ana" "pw" DRIVER 1 in
  let f := mkCalculatorForm INDIVIDUAL "2024-03-05" "3" "4" false
                            "" "" "" [] in
  let drafts :=
    [ mkRecordDraft "u1" "2024-03-05" INDIVIDUAL PARCEL 3 (inject_Z 3 * 1.00)
                    (Some ""%string) (Some false) [];
      mkRecordDraft "u1" "2024-03-05" INDIVIDUAL COLLECTION 4
                    (inject_Z 4 * 0.80) (Some ""%string) (Some false) [] ] in
  handleSave user f = Calls drafts /\
  fold_right Qplus 0 (map d_value drafts) == 6.2.
Proof.
  intros user f drafts.
  assert (E : handleSave user f = Calls drafts) by reflexivity.
  split; [ exact E | ].
  assert (H : fold_right Qplus 0 (map d_value drafts) == previewValue f).
  { apply (handleSave_saves_preview user f drafts E);
      [ reflexivity | vm_compute; discriminate | vm_compute; discriminate ]. }
  rewrite H. reflexivity.
Defined.



End RecordEntryFacts.

(** ** Dashboard and history *)

Section DashboardFacts.

Variable toLocaleMonthYear : string -> string.

Import Js LocalStore.

Lemma groupedRecords_groups (rs : list WorkRecord) :
  let gs := groupedRecords toLocaleMonthYear rs in
  Forall (fun g => group_ok rs (monthKey g) g) gs /\
  Permutation (flat_map records gs) rs.
Proof.
  intros gs.
  pose proof (fold_group_step_ok toLocaleMonthYear rs [] [] groups_ok_start)
    as (_ & Hall & _ & Hflat).
  cbn [app] in Hall, Hflat.
  destruct (sort_by_key_desc monthKey
              (Js.values (fold_left (group_step toLocaleMonthYear) rs [])))
    as [Hperm _].
  split.
  - apply (Permutation_Forall (Permutation_sym Hperm)).
    unfold Js.values. apply Forall_map.
    eapply Forall_impl; [ | exact Hall ].
    intros [k g] Hg. simpl in *. destruct Hg as (Hk & Hg). rewrite Hk.
    split; auto.
  - rewrite <- Hflat. now apply Permutation_flat_map.
Qed.





Lemma StronglySorted_filter {A : Type} (R : A -> A -> Prop) (p : A -> bool)
      (l : list A) :
  StronglySorted R l -> StronglySorted R (filter p l).
Proof.
  induction 1 as [ | x l Hl IH Hx ]; simpl; [ constructor | ].
  destruct (p x); [ | exact IH ].
  constructor; [ exact IH | ].
  rewrite Forall_forall in *. intros y Hy. apply filter_In in Hy.
  now apply Hx.
Qed.

(** X19. The history built from [getUserRecords] shows a user's own stored
    records and all of them: every record of a group is stored under that
    user and lies in the group of its month, every stored record of the
    user lies in some group, and inside a group the dates never
    increase. *)
Theorem history_of_user (userId' : string) (st : Storage) :
  let gs := groupedRecords toLocaleMonthYear (getUserRecords userId' st) in
  Forall (fun g =>
            Forall (fun r => In r (getStoredRecords st) /\
                             userId r = userId' /\ month_of r = monthKey g)
                   (records g) /\
            StronglySorted (fun a b => string_ge (date a) (date b)) (records g))
         gs /\
  (forall r, In r (getStoredRecords st) -> userId r = userId' ->
     exists g, In g gs /\ In r (records g)).
Proof.
  intros gs.
  destruct (groupedRecords_groups (getUserRecords userId' st)) as [Hall Hflat].
  fold gs in Hall, Hflat.
  destruct (sort_by_key_desc date
              (filter (fun r => (userId r =? userId')%string)
                      (getStoredRecords st))) as [Hperm Hsorted].
  change (sort _ _) with (getUserRecords userId' st) in Hperm, Hsorted.
  split.
  - eapply Forall_impl; [ | exact Hall ].
    intros g (_ & Hr & _ & _). rewrite Hr. split.
    + apply Forall_forall. intros r Hin. apply filter_In in Hin.
      destruct Hin as [Hin Hk]. apply String.eqb_eq in Hk.
      apply (Permutation_in _ Hperm), filter_In in Hin.
      destruct Hin as [Hin Hu]. apply String.eqb_eq in Hu. auto.
    + now apply StronglySorted_filter.
  - intros r Hin Hu.
    assert (Hr : In r (flat_map records gs)).
    { apply (Permutation_in _ (Permutation_sym Hflat)).
      apply (Permutation_in _ (Permutation_sym Hperm)).
      apply filter_In. split; [ exact Hin | now apply String.eqb_eq ]. }
    apply in_flat_map in Hr. exact Hr.
Qed.

End DashboardFacts.


(** ** The administrator's view *)

Section AdminFacts.

Import Js.

Lemma allRecords_flat_map {S : Type} (svc : StorageService S)
      (drivers : list User) (st : S) :
  allRecords svc drivers st =
  flat_map (fun d => svc_getUserRecords svc (u_id d) st) drivers.
Proof.
  unfold allRecords.
  assert (H : forall acc,
             fold_left (fun all d => all ++ svc_getUserRecords svc (u_id d) st)
                       drivers acc =
             acc ++ flat_map (fun d => svc_getUserRecords svc (u_id d) st) drivers).
  { induction drivers as [ | d drivers IH ]; intros acc; simpl.
    - now rewrite app_nil_r.
    - now rewrite IH, app_assoc. }
  apply H.
Qed.

Lemma string_append_assoc (a b c : string) :
  ((a ++ b) ++ c = a ++ (b ++ c))%string.
Proof. induction a as [ | x a IH ]; simpl; [ reflexivity | now rewrite IH ]. Qed.

Lemma filter_orb_disjoint {A : Type} (p q : A -> bool) (l : list A) :
  (forall x, In x l -> p x = true -> q x = false) ->
  Permutation (filter (fun x => p x || q x)%bool l) (filter p l ++ filter q l).
Proof.
  induction l as [ | x l IH ]; simpl; intros H; [ reflexivity | ].
  assert (IH' := IH (fun y Hy => H y (or_intror Hy))).
  destruct (p x) eqn:P; simpl.
  - rewrite (H x (or_introl eq_refl) P). now constructor.
  - destruct (q x); [ | exact IH' ].
    rewrite IH'. apply Permutation_middle.
Qed.

(** X16. The global export gathers, driver after driver, the records each
    driver reads from the service.  Over a service whose [getUserRecords]
    returns the stored records of the user asked for, every exported record
    belongs to one of the drivers, and when the drivers' ids are distinct
    the export holds each stored record of a driver once and nothing else;
    the file is named [Payload_GLOBAL_EXPORT_] and the day. *)
Theorem handleGlobalExport_drivers_records
  {S : Type} (svc : StorageService S) (today : string) (drivers : list User)
  (st : S) (stored : list WorkRecord) :
  (forall u, Permutation (svc_getUserRecords svc u st)
                         (filter (fun r => (userId r =? u)%string) stored)) ->
  let exported := allRecords svc drivers st in
  blob_text (handleGlobalExport svc today drivers st) = csvContent exported /\
  download (handleGlobalExport svc today drivers st) =
    ("Payload_GLOBAL_EXPORT_" ++ today ++ ".csv")%string /\
  (forall r, In r exported ->
     In r stored /\ exists d, In d drivers /\ userId r = u_id d) /\
  (NoDup (map u_id drivers) ->
   Permutation exported
     (filter (fun r => existsb (fun d => (userId r =? u_id d)%string) drivers)
             stored)).
Proof.
  intros Hsvc exported. subst exported. rewrite allRecords_flat_map.
  split; [ unfold handleGlobalExport; now rewrite allRecords_flat_map | ].
  split.
  { unfold handleGlobalExport, generateCSV. cbn [download].
    now rewrite string_append_assoc. }
  split.
  - intros r Hr. apply in_flat_map in Hr. destruct Hr as (d & Hd & Hr).
    apply (Permutation_in _ (Hsvc (u_id d))), filter_In in Hr.
    destruct Hr as [Hin Hu]. apply String.eqb_eq in Hu.
    split; [ exact Hin | ]. now exists d.
  - induction drivers as [ | d drivers IH ]; simpl; intros Hnd.
    + replace (filter (fun _ : WorkRecord => false) stored)
        with (@nil WorkRecord); [ apply perm_nil | ].
      symmetry. apply filter_nil_iff. reflexivity.
    + inversion Hnd as [ | ? ? Hnotin Hnd' ]; subst.
      eapply Permutation_trans;
        [ apply Permutation_app; [ apply Hsvc | apply IH; exact Hnd' ] | ].
      symmetry.
      apply filter_orb_disjoint. intros r _ Hr.
      apply String.eqb_eq in Hr.
      destruct (existsb _ drivers) eqn:E; [ | reflexivity ].
      apply existsb_exists in E. destruct E as (d' & Hd' & E).
      apply String.eqb_eq in E. exfalso. apply Hnotin.
      rewrite <- Hr, E. now apply in_map.
Qed.

Lemma handleGlobalExport_drivers_records_witness :
  let ana := mkUser "ana" "Ana" "ana" "pw" DRIVER 1 in
  let r d u := mkWorkRecord d u d INDIVIDUAL PARCEL 1 1.00 None None [] 0 in
  let st := LocalStore.mkStorage
              (Some [ana])
              (Some [r "2024-03-05"%string "ana"%string;
                     r "2024-04-01"%string "zoe"%string]) in
  Permutation (allRecords (local_service "u" 0) [ana] st)
              [r "2024-03-05"%string "ana"%string].
Proof.
  intros ana r st.
  apply (handleGlobalExport_drivers_records (local_service "u" 0) "2024-05-01"
           [ana] st (LocalStore.getStoredRecords st)).
  - intros u. apply sort_perm.
  - repeat constructor. intros [].
Defined.

Lemma lower_idem (c : ascii) : lower (lower c) = lower c.
Proof.
  destruct c as [[ | ] [ | ] [ | ] [ | ] [ | ] [ | ] [ | ] [ | ]]; reflexivity.
Qed.

Lemma toLowerCase_idem (s : string) : toLowerCase (toLowerCase s) = toLowerCase s.
Proof.
  induction s as [ | c s IH ]; simpl; [ reflexivity | ].
  now rewrite lower_idem, IH.
Qed.

Lemma prefix_refl (s : string) : String.prefix s s = true.
Proof.
  induction s as [ | c s IH ]; simpl; [ reflexivity | ].
  destruct (ascii_dec c c); [ exact IH | contradiction ].
Qed.

Lemma includes_self (s : string) : includes s s = true.
Proof.
  destruct s as [ | c s ]; [ reflexivity | ].
  cbn [includes]. now rewrite prefix_refl.
Qed.

Lemma includes_empty (s : string) : includes s EmptyString = true.
Proof. destruct s; reflexivity. Qed.

(** X17. The driver search keeps drivers of the list, in their order.  An
    empty search term keeps them all; a term that equals a driver's name or
    username up to the case of ASCII letters keeps that driver; and the
    case of the term does not change the result. *)
Theorem filteredDrivers_search (drivers : list User) (searchTerm : string) :
  filteredDrivers drivers EmptyString = drivers /\
  (forall d, In d (filteredDrivers drivers searchTerm) -> In d drivers) /\
  (forall d, In d drivers ->
     toLowerCase (u_name d) = toLowerCase searchTerm \/
     toLowerCase (u_username d) = toLowerCase searchTerm ->
     In d (filteredDrivers drivers searchTerm)) /\
  filteredDrivers drivers (toLowerCase searchTerm) =
    filteredDrivers drivers searchTerm.
Proof.
  unfold filteredDrivers. split; [ | split; [ | split ] ].
  - apply filter_all. intros d _. cbn [toLowerCase].
    now rewrite includes_empty.
  - intros d Hd. now apply filter_In in Hd.
  - intros d Hd [ E | E ]; apply filter_In; (split; [ exact Hd | ]);
      rewrite E, includes_self; [ reflexivity | apply orb_true_r ].
  - now rewrite toLowerCase_idem.
Qed.

Lemma filteredDrivers_search_witness :
  let ana := mkUser "id-1" "Ana Lima" "ana" "pw" DRIVER 1 in
  let bia := mkUser "id-2" "Bia" "bia" "pw" DRIVER 2 in
  In bia (filteredDrivers [ana; bia] "BIA").
Proof.
  intros ana bia.
  apply (proj1 (proj2 (proj2 (filteredDrivers_search [ana; bia] "BIA")))).
  - right. now left.
  - left. reflexivity.
Defined.

Lemma authenticate_matches_user (username password : string)
      (role : UserRole) (st : LocalStore.Storage) (u : User) :
  LocalStore.authenticate username password role st = Some u ->
  In u (LocalStore.getStoredUsers st) /\ u_username u = username /\
  u_passwordHash u = password /\ u_role u = role.
Proof.
  unfold LocalStore.authenticate. intros E. apply find_some in E.
  destruct E as [Hin E]. apply authenticate_find in E. tauto.
Qed.

(** X18. Over the browser-storage service, a submission of the login form
    that logs a user in logs in a stored user whose username and password
    are those typed and whose role is that of the active tab; the
    administrator tab never registers, a registration with an empty field
    is refused, and a submission that ends with an error leaves the
    storage as it was. *)
Theorem handleSubmit_local
  (uuid : string) (now : Z) (f : LoginForm) (st : LocalStore.Storage) :
  let out := handleSubmit (local_service uuid now) f st in
  (forall u, fst out = LoggedIn u ->
     In u (LocalStore.getStoredUsers (snd out)) /\
     u_username u = l_username f /\ u_passwordHash u = l_password f /\
     u_role u = match l_activeTab f with
                | TabDriver => DRIVER
                | TabAdmin => ADMIN
                end) /\
  (l_activeTab f = TabAdmin \/ l_isRegistering f = false -> snd out = st) /\
  (l_activeTab f = TabDriver -> l_isRegistering f = true ->
   l_name f = EmptyString \/ l_username f = EmptyString \/
   l_password f = EmptyString ->
   out = (ShowError "Preencha todos os campos", st)) /\
  (forall msg, fst out = ShowError msg -> snd out = st).
Proof.
  intros out. subst out. unfold handleSubmit.
  cbn [local_service svc_registerUser svc_authenticate].
  destruct (l_activeTab f) eqn:Htab, (l_isRegistering f) eqn:Hreg;
    cbn [andb].
  - (* registration *)
    destruct (negb (truthy (l_name f)) || negb (truthy (l_username f))
              || negb (truthy (l_password f)))%bool eqn:Hempty.
    + cbn [fst snd truthy].
      split; [ intros u Hu; discriminate Hu | ].
      split; [ reflexivity | ]. split; reflexivity.
    + assert (Hfilled : ~ (l_name f = EmptyString \/ l_username f = EmptyString
                           \/ l_password f = EmptyString)).
      { intros [ E | [ E | E ] ]; rewrite E in Hempty; cbn in Hempty;
          rewrite ?orb_true_r in Hempty; discriminate Hempty. }
      unfold LocalStore.registerUser.
      destruct (existsb _ (LocalStore.getStoredUsers st)); cbn [fst snd truthy].
      * split; [ intros u Hu; discriminate Hu | ].
        split; [ reflexivity | ].
        split; [ intros _ _ He; contradiction | reflexivity ].
      * split.
        { intros u Hu. injection Hu as <-. rewrite getStoredUsers_save.
          split; [ apply in_or_app; right; now left | ]. repeat split. }
        split; [ intros [ Hc | Hc ]; discriminate Hc | ].
        split; [ intros _ _ He; contradiction | ].
        intros msg Hm. discriminate Hm.
  - (* a driver signs in *)
    destruct (LocalStore.authenticate _ _ DRIVER st) as [ u | ] eqn:E;
      cbn [fst snd].
    + split.
      { intros u' Hu. injection Hu as <-.
        apply (authenticate_matches_user _ _ _ _ _ E). }
      split; [ reflexivity | ].
      split; [ intros _ Hc; discriminate Hc | reflexivity ].
    + split; [ intros u Hu; discriminate Hu | ].
      split; [ reflexivity | ].
      split; [ intros _ Hc; discriminate Hc | reflexivity ].
  - (* the administrator tab, whatever the registering flag *)
    destruct (LocalStore.authenticate _ _ ADMIN st) as [ u | ] eqn:E;
      cbn [fst snd].
    + split.
      { intros u' Hu. injection Hu as <-.
        apply (authenticate_matches_user _ _ _ _ _ E). }
      split; [ reflexivity | ].
      split; [ intros Hc; discriminate Hc | reflexivity ].
    + split; [ intros u Hu; discriminate Hu | ].
      split; [ reflexivity | ].
      split; [ intros Hc; discriminate Hc | reflexivity ].
  - destruct (LocalStore.authenticate _ _ ADMIN st) as [ u | ] eqn:E;
      cbn [fst snd].
    + split.
      { intros u' Hu. injection Hu as <-.
        apply (authenticate_matches_user _ _ _ _ _ E). }
      split; [ reflexivity | ].
      split; [ intros Hc; discriminate Hc | reflexivity ].
    + split; [ intros u Hu; discriminate Hu | ].
      split; [ reflexivity | ].
      split; [ intros Hc; discriminate Hc | reflexivity ].
Qed.

Lemma handleSubmit_local_witness :
  let f := mkLoginForm TabDriver true "" "ana" "pw" in
  handleSubmit (local_service "id-1" 1) f (LocalStore.mkStorage None None) =
  (ShowError "Preencha todos os campos", LocalStore.mkStorage None None).
Proof.
  intros f.
  apply (proj1 (proj2 (proj2
           (handleSubmit_local "id-1" 1 f (LocalStore.mkStorage None None))))).
  - reflexivity.
  - reflexivity.
  - left. reflexivity.
Defined.

End AdminFacts.

(** ** Generated ids *)

Section UuidFacts.

Lemma toInt32_nibble (x : Q) :
  (0 <= x)%Q -> (x < 1)%Q -> (0 <= toInt32 (x * 16) <= 15)%Z.
Proof.
  intros H0 H1. unfold toInt32.
  assert (Hlo : (0 <= x * 16)%Q) by (apply Qmult_le_0_compat; [ exact H0 | now vm_compute ]).
  rewrite (proj2 (Qle_bool_iff 0 (x * 16)) Hlo).
  assert (Hf0 : (0 <= Qfloor (x * 16))%Z)
    by (change 0%Z with (Qfloor 0); now apply Qfloor_resp_le).
  assert (Hf1 : (Qfloor (x * 16) < 16)%Z).
  { rewrite Zlt_Qlt. apply Qle_lt_trans with (x * 16)%Q; [ apply Qfloor_le | ].
    change (inject_Z 16) with (1 * 16)%Q.
    apply Qmult_lt_compat_r; [ now vm_compute | exact H1 ]. }
  rewrite Z.mod_small by lia. lia.
Qed.

Lemma nibble_cases (r : Z) :
  (0 <= r <= 15)%Z ->
  In r [0; 1; 2; 3; 4; 5; 6; 7; 8; 9; 10; 11; 12; 13; 14; 15]%Z.
Proof. intros H. simpl. lia. Qed.

Lemma uuid_char_x (x : Q) :
  (0 <= x)%Q -> (x < 1)%Q ->
  exists c, uuid_char "x" x = String c EmptyString /\ is_hex c = true.
Proof.
  intros H0 H1. unfold uuid_char. cbn [Ascii.eqb Bool.eqb].
  pose proof (nibble_cases _ (toInt32_nibble x H0 H1)) as Hr.
  simpl in Hr.
  repeat (destruct Hr as [ <- | Hr ];
          [ eexists; split; reflexivity | ]).
  destruct Hr.
Qed.

Lemma uuid_char_y (x : Q) :
  (0 <= x)%Q -> (x < 1)%Q ->
  exists c, uuid_char "y" x = String c EmptyString /\
            In c ["8"; "9"; "a"; "b"]%char.
Proof.
  intros H0 H1. unfold uuid_char. cbn [Ascii.eqb Bool.eqb].
  pose proof (nibble_cases _ (toInt32_nibble x H0 H1)) as Hr.
  simpl in Hr.
  repeat (destruct Hr as [ <- | Hr ];
          [ eexists; split; [ reflexivity | simpl; tauto ] | ]).
  destruct Hr.
Qed.

Lemma replace_xy_shape (template : string) (random : nat -> Q) (k : nat) :
  (forall n, (0 <= random n)%Q /\ (random n < 1)%Q) ->
  Forall2 uuid_char_ok (list_ascii_of_string template)
          (list_ascii_of_string (replace_xy template random k)).
Proof.
  intros Hrandom. revert k.
  induction template as [ | c template IH ]; intros k; cbn [replace_xy list_ascii_of_string].
  - constructor.
  - destruct (Ascii.eqb_spec c "x") as [ -> | Hx ]; cbn [orb].
    + destruct (Hrandom k) as [H0 H1].
      destruct (uuid_char_x (random k) H0 H1) as (d & -> & Hd).
      cbn [append list_ascii_of_string]. constructor; [ exact Hd | apply IH ].
    + destruct (Ascii.eqb_spec c "y") as [ -> | Hy ].
      * destruct (Hrandom k) as [H0 H1].
        destruct (uuid_char_y (random k) H0 H1) as (d & -> & Hd).
        cbn [append list_ascii_of_string]. constructor; [ exact Hd | apply IH ].
      * cbn [list_ascii_of_string]. constructor; [ | apply IH ].
        unfold uuid_char_ok.
        destruct (Ascii.eqb_spec c "x"); [ contradiction | ].
        destruct (Ascii.eqb_spec c "y"); [ contradiction | reflexivity ].
Qed.

Lemma length_list_ascii (s : string) :
  List.length (list_ascii_of_string s) = String.length s.
Proof. induction s; simpl; auto. Qed.

(** X20. Without [crypto.randomUUID], and with [Math.random()] returning
    numbers from 0 up to but not including 1, [generateUUID] returns 36
    characters that follow the template: a hexadecimal digit for each [x],
    one of [8], [9], [a], [b] for the [y], and the hyphens and the [4] of
    the template in their places.  With [crypto.randomUUID] it returns what
    that returns. *)
Theorem generateUUID_fallback_shape (random : nat -> Q) :
  (forall n, (0 <= random n)%Q /\ (random n < 1)%Q) ->
  String.length (generateUUID None random) = 36%nat /\
  Forall2 uuid_char_ok
    (list_ascii_of_string "xxxxxxxx-xxxx-4xxx-yxxx-xxxxxxxxxxxx")
    (list_ascii_of_string (generateUUID None random)) /\
  (forall uuid, generateUUID (Some uuid) random = uuid).
Proof.
  intros Hrandom.
  pose proof (replace_xy_shape "xxxxxxxx-xxxx-4xxx-yxxx-xxxxxxxxxxxx"
                random 0 Hrandom) as Hshape.
  split; [ | split; [ exact Hshape | reflexivity ] ].
  rewrite <- length_list_ascii. unfold generateUUID.
  rewrite <- (Forall2_length Hshape). reflexivity.
Qed.

Lemma generateUUID_fallback_shape_witness :
  String.length (generateUUID None (fun _ => 1 # 2)) = 36%nat.
Proof.
  apply (generateUUID_fallback_shape (fun _ => 1 # 2)).
  intros n. split; [ discriminate | reflexivity ].
Defined.

End UuidFacts.

(** ** The service over the hosted database: seeding, accounts, records *)

Section HostedServiceFacts.

Import Js HostedStore.

(** X21. Over the hosted database [initializeStorage] leaves a database
    without a users table as it is.  With a users table in which at most
    one row is called [admin], two runs leave exactly one such row and the
    second run changes nothing.  With two rows or more called [admin],
    [single()] reports no single row, which the code takes for no row, and a
    run inserts one more. *)
Theorem hosted_initializeStorage_seeding
  (uuid1 uuid2 : string) (now1 now2 : Z) (rows : list User)
  (ws : option (list WorkRecord)) :
  initializeStorage uuid1 now1 (mkDatabase None ws) = mkDatabase None ws /\
  ((List.length (named "admin" rows) <= 1)%nat ->
   let db1 := initializeStorage uuid1 now1 (mkDatabase (Some rows) ws) in
   initializeStorage uuid2 now2 db1 = db1 /\
   exists rows', users db1 = Some rows' /\
     List.length (named "admin" rows') = 1%nat) /\
  ((2 <= List.length (named "admin" rows))%nat ->
   initializeStorage uuid1 now1 (mkDatabase (Some rows) ws) =
   mkDatabase
     (Some (rows ++ [mkUser uuid1 "System Admin" "admin" "EVRI01" ADMIN now1]))
     ws).
Proof.
  split; [ reflexivity | ]. split.
  - intros H.
    destruct (hosted_seeding_once uuid1 uuid2 now1 now2 rows ws H)
      as (E & rows' & Hrows & Hone).
    cbn zeta in *. split; [ exact E | ].
    exists rows'. rewrite <- E. now split.
  - intros H. unfold initializeStorage, select, single, named in *.
    cbn [users data error].
    destruct (filter _ rows) as [ | u [ | u' rest ] ];
      [ simpl in H; lia | simpl in H; lia | reflexivity ].
Qed.

Lemma hosted_initializeStorage_seeding_witness :
  users (initializeStorage "u1" 1 (mkDatabase (Some []) None)) =
  Some [mkUser "u1" "System Admin" "admin" "EVRI01" ADMIN 1].
Proof.
  destruct (hosted_initializeStorage_seeding "u1" "u2" 1 2 [] None)
    as (_ & H & _).
  destruct H as (_ & rows' & Hrows & _); [ simpl; lia | ].
  rewrite Hrows. vm_compute in Hrows. injection Hrows as <-. reflexivity.
Defined.

(** X22. Over a provisioned hosted database in which the username names at
    most one row, [registerUser] throws the duplicate-username error and
    leaves the database as it is when the row exists; otherwise it inserts
    and returns a DRIVER row, after which the username and password sign
    that user in as DRIVER and not as ADMIN. *)
Theorem hosted_register_then_login
  (uuid : string) (now : Z) (name username password : string)
  (rows : list User) (ws : option (list WorkRecord)) :
  (List.length (named username rows) <= 1)%nat ->
  let db := mkDatabase (Some rows) ws in
  let out := registerUser uuid now name username password db in
  let newUser := mkUser uuid name username password DRIVER now in
  (named username rows <> [] ->
   out = (Throw "Usuário já existe.", db)) /\
  (named username rows = [] ->
   out = (Ok newUser, mkDatabase (Some (rows ++ [newUser])) ws) /\
   authenticate username password DRIVER (snd out) = Some newUser /\
   authenticate username password ADMIN (snd out) = None).
Proof.
  intros H db out newUser.
  destruct (hosted_register_unique uuid now name username password rows ws H)
    as [Hdup Hnew].
  cbn zeta in Hdup, Hnew. fold db in Hdup, Hnew. fold out in Hdup, Hnew.
  split.
  - intros Hne. destruct (Hdup Hne) as [E1 E2].
    rewrite (surjective_pairing out), E1, E2. reflexivity.
  - intros Hnil. destruct (Hnew Hnil) as [E1 E2].
    assert (Eout : out = (Ok newUser, mkDatabase (Some (rows ++ [newUser])) ws))
      by (rewrite (surjective_pairing out), E1, E2; reflexivity).
    split; [ exact Eout | ]. rewrite Eout. cbn [snd].
    assert (Hold : forall role,
               filter (fun u => (u_username u =? username)%string
                                && (u_passwordHash u =? password)%string
                                && UserRole_eqb (u_role u) role)%bool rows = []).
    { intros role. apply filter_nil_iff. intros u Hu.
      unfold named in Hnil. rewrite filter_nil_iff in Hnil.
      now rewrite (Hnil u Hu). }
    unfold authenticate, select, single. cbn [users data error].
    rewrite !filter_app, !Hold. subst newUser.
    cbn [filter app u_username u_passwordHash u_role UserRole_eqb].
    rewrite !String.eqb_refl. split; reflexivity.
Qed.

Lemma hosted_register_then_login_witness :
  authenticate "bia" "pw" DRIVER
    (snd (registerUser "id-2" 2 "Bia" "bia" "pw" (mkDatabase (Some []) None))) =
  Some (mkUser "id-2" "Bia" "bia" "pw" DRIVER 2).
Proof.
  destruct (hosted_register_then_login "id-2" 2 "Bia" "bia" "pw"
              [] None) as [_ H]; [ simpl; lia | ].
  apply H. reflexivity.
Defined.

(** X23. Over a hosted database without its tables, the reads give empty
    results ([authenticate] nobody, [getAllDrivers] and [getUserRecords]
    no row) and the writes throw ([registerUser] the message of the
    database, [createRecord] its own prefix before that message,
    [deleteRecord] its own message), and none of them changes the
    database. *)
Theorem hosted_unprovisioned_degrades
  (uuid : string) (now : Z) (name username password recordId : string)
  (role : UserRole) (draft : RecordDraft) :
  let db := mkDatabase None None in
  authenticate username password role db = None /\
  getAllDrivers db = [] /\
  getUserRecords username db = [] /\
  registerUser uuid now name username password db =
    (Throw (message (undefined_table "users")), db) /\
  createRecord uuid now draft db =
    (Throw ("Erro ao salvar registro: " ++
            message (undefined_table "work_records"))%string, db) /\
  deleteRecord recordId db = (Throw "Erro ao deletar registro", db).
Proof. repeat split. Qed.



End HostedServiceFacts.
